(** * monitor-emas9: the aggregation-and-broadcast engine of [main.py]

    A shallow embedding of the price poller, the bounded histories, the
    snapshot cache, the broadcast debouncer and the connection registry of
    [src/main.py], followed by the properties the specification states
    about them.

    Conventions.
    - Python values that travel through the code (parsed JSON documents,
      history items) are values of [pyval]; dicts keep their insertion
      order (association lists), sets are [gset]s.
    - A [try]/[except] region is a computation in the result type [res];
      the handler is a [match] on it.
    - Clock readings ([loop.time()]) and sleep durations are integers in
      milliseconds: 0.02 s is 20, 0.008 s is 8, 0.05 s is 50, 2.0 s is 2000.
    - Python floats are IEEE 754 binary64 values ([spec_float] at precision
      53, maximal exponent 1024).
    - An [async] function is cut at its suspension points ([await] of a
      sleep or of network I/O); each piece between two suspension points
      runs without interleaving under asyncio and is one transition. *)

From Stdlib Require Import ZArith String Ascii List Lia Bool.
From Stdlib Require Import Floats.SpecFloat.
From stdpp Require Import base gmap sets list strings.
Import ListNotations.
#[local] Set Warnings "-clear-no-such-hyp,-abstract-large-number".
Local Open Scope string_scope.
Local Open Scope list_scope.
Local Open Scope Z_scope.

(** ** Python values, exceptions *)

(** The values of a parsed JSON document and of the dicts the code
    builds. JSON real numbers are not represented: rates arrive as ints
    or as decimal strings, and floats live only inside [calc_profit] and
    the [int(float(x))] conversion. *)

#[warnings="-register-all"]
Inductive pyval :=
| PNone
| PBool (b : bool)
| PInt (z : Z)
| PStr (s : string)
| PList (l : list pyval)
| PDict (d : list (string * pyval)).

Abbreviation pydict := (list (string * pyval)).

Inductive exn :=
| KeyError | ZeroDivisionError | TypeError | ValueError
| OverflowError | AttributeError | IndexError | TimeoutError | SendError.

Inductive res (A : Type) :=
| Ok (a : A)
| Raise (e : exn).
Arguments Ok {A} a.
Arguments Raise {A} e.

#[global] Instance exn_eq_dec : EqDecision exn.
Proof. solve_decision. Defined.

#[global] Instance res_eq_dec {A} `{EqDecision A} : EqDecision (res A).
Proof. solve_decision. Defined.

(** Sequencing: the first exception raised ends the computation.
    [x ← c; k] is stdpp's notation for the bind of this monad. *)
#[global] Instance res_ret : MRet res := fun A a => Ok a.
#[global] Instance res_bind : MBind res := fun A B k c =>
  match c with
  | Ok a => k a
  | Raise e => Raise e
  end.

(** [try: body except: handler] with a bare [except] clause. *)
Definition try_except {A} (body : res A) (handler : res A) : res A :=
  match body with
  | Ok a => Ok a
  | Raise _ => handler
  end.

(** [bool(v)] *)
Definition truthy (v : pyval) : bool :=
  match v with
  | PNone => false
  | PBool b => b
  | PInt z => negb (z =? 0)
  | PStr s => negb (String.eqb s "")
  | PList l => match l with [] => false | _ => true end
  | PDict d => match d with [] => false | _ => true end
  end.

(** [d[k]] and [d.get(k, default)] on a dict in insertion order. *)
Fixpoint dict_lookup (k : string) (d : pydict) : option pyval :=
  match d with
  | [] => None
  | (k', v) :: d' => if String.eqb k k' then Some v else dict_lookup k d'
  end.

Definition getitem (d : pydict) (k : string) : res pyval :=
  match dict_lookup k d with
  | Some v => Ok v
  | None => Raise KeyError
  end.

Definition dict_get (d : pydict) (k : string) (default : pyval) : pyval :=
  match dict_lookup k d with
  | Some v => v
  | None => default
  end.

(** [v.get(k, default)]: only a dict has the method. *)
Definition py_get (v : pyval) (k : string) (default : pyval) : res pyval :=
  match v with
  | PDict d => Ok (dict_get d k default)
  | _ => Raise AttributeError
  end.

(** ** Floats *)

Abbreviation pyfloat := spec_float.

Definition fprec : Z := 53.
Definition femax : Z := 1024.

Definition finite_or_overflow (f : pyfloat) : res pyfloat :=
  match f with
  | S754_infinity _ => Raise OverflowError
  | _ => Ok f
  end.

(** [float(z)] for an int: nearest-even rounding, [OverflowError] beyond
    the range. *)
Definition float_of_int (z : Z) : res pyfloat :=
  finite_or_overflow (binary_normalize fprec femax z 0 false).

(** [a / b] on two ints: the correctly rounded quotient. *)
Definition int_truediv (a b : Z) : res pyfloat :=
  if b =? 0 then Raise ZeroDivisionError
  else if a =? 0 then Ok (S754_zero (b <? 0))
  else
    let '(q, e, l) := SFdiv_core_binary fprec femax (Z.abs a) 0 (Z.abs b) 0 in
    finite_or_overflow
      (binary_round_aux fprec femax (xorb (a <? 0) (b <? 0)) q e l).

(** [int(f)]: truncation toward zero. *)
Definition int_of_float (f : pyfloat) : res Z :=
  match f with
  | S754_zero _ => Ok 0
  | S754_infinity _ => Raise OverflowError
  | S754_nan => Raise ValueError
  | S754_finite s m e =>
      let mag := if 0 <=? e then Z.pos m * 2 ^ e else Z.pos m / 2 ^ (- e) in
      Ok (if s then - mag else mag)
  end.

(** The operand of a float operation: ints and bools convert, anything
    else is a [TypeError]. *)
Definition float_operand (v : pyval) : res pyfloat :=
  match v with
  | PInt z => float_of_int z
  | PBool b => float_of_int (if b then 1 else 0)
  | _ => Raise TypeError
  end.

(** ** Decimal formatting *)

Definition digit_char (d : Z) : ascii :=
  ascii_of_nat (48 + Z.to_nat d).

Fixpoint digits_fuel (fuel : nat) (n : Z) (acc : list ascii) : list ascii :=
  match fuel with
  | O => acc
  | S fuel' =>
      let acc' := digit_char (n mod 10) :: acc in
      if n / 10 =? 0 then acc' else digits_fuel fuel' (n / 10) acc'
  end.

(** Decimal digits of a natural number, most significant first. *)
Definition digits (n : Z) : list ascii :=
  digits_fuel (S (Z.to_nat (Z.log2 n))) n [].

(** Insert [sep] between groups of three digits, counted from the right. *)
Fixpoint group3_rev (sep : ascii) (rev_digits : list ascii) : list ascii :=
  match rev_digits with
  | a :: b :: c :: ((_ :: _) as rest) => a :: b :: c :: sep :: group3_rev sep rest
  | l => l
  end.

Definition group3 (sep : ascii) (ds : list ascii) : list ascii :=
  rev (group3_rev sep (rev ds)).

Definition string_of_chars (l : list ascii) : string :=
  fold_right String EmptyString l.

Fixpoint replace_char (a b : ascii) (s : string) : string :=
  match s with
  | EmptyString => EmptyString
  | String c s' => String (if Ascii.eqb c a then b else c) (replace_char a b s')
  end.

(** [f"{n:,}"] on an int. *)
Definition format_int_comma (n : Z) : string :=
  let body := string_of_chars (group3 "," (digits (Z.abs n))) in
  if n <? 0 then "-" +:+ body else body.

(** [format_rupiah]: [f"{n:,}".replace(",", ".")]. *)
Definition format_rupiah (n : Z) : string :=
  replace_char "," "." (format_int_comma n).

(** Round-half-even of the non-negative rational [n / d] to an integer. *)
Definition round_half_even (n d : Z) : Z :=
  let q := n / d in
  let r := n mod d in
  match 2 * r ?= d with
  | Lt => q
  | Gt => q + 1
  | Eq => if Z.even q then q else q + 1
  end.

Definition pad_left (width : nat) (c : ascii) (l : list ascii) : list ascii :=
  repeat c (width - length l)%nat ++ l.

(** [f"{x:,.4f}"] on a float: the exact binary value rounded half-even to
    four decimals, the integer part grouped by thousands. *)
Definition format_float_comma_4f (x : pyfloat) : string :=
  let fixed (s : bool) (n : Z) :=
    let body :=
      string_of_chars (group3 "," (digits (n / 10000)))
      +:+ "." +:+ string_of_chars (pad_left 4 "0" (digits (n mod 10000))) in
    if s then "-" +:+ body else body in
  match x with
  | S754_nan => "nan"
  | S754_infinity s => if s then "-inf" else "inf"
  | S754_zero s => fixed s 0
  | S754_finite s m e =>
      fixed s (if 0 <=? e then Z.pos m * 2 ^ e * 10000
               else round_half_even (Z.pos m * 10000) (2 ^ (- e)))
  end.

(** ** Per-row profit, [calc_profit] *)

Definition PROFIT_CONFIGS : list (Z * Z) :=
  [ (20000000, 19314000);
    (30000000, 28980000);
    (40000000, 38652000);
    (50000000, 48325000) ].

(** [modal / buy_rate]: [modal] is an int; the divisor is whatever the
    item holds. *)
Definition py_int_truediv (modal : Z) (v : pyval) : res pyfloat :=
  match v with
  | PInt z => int_truediv modal z
  | PBool b => int_truediv modal (if b then 1 else 0)
  | _ => Raise TypeError
  end.

Definition py_float_mul (x : pyfloat) (v : pyval) : res pyfloat :=
  y ← float_operand v;
  Ok (SFmul fprec femax x y).

Definition py_float_sub_int (x : pyfloat) (z : Z) : res pyfloat :=
  y ← float_of_int z;
  Ok (SFsub fprec femax x y).

(** The body of the [try] block of [calc_profit]. *)
Definition calc_profit_try (h : pydict) (modal pokok : Z) : res string :=
  buy_rate ← getitem h "buying_rate";
  sell_rate ← getitem h "selling_rate";
  gram ← py_int_truediv modal buy_rate;
  prod ← py_float_mul gram sell_rate;
  net ← py_float_sub_int prod pokok;
  val ← int_of_float net;
  let gram_str := replace_char "," "." (format_float_comma_4f gram) in
  if 0 <? val then
    Ok ("+" +:+ format_rupiah val +:+ "🟢➺" +:+ gram_str +:+ "gr")
  else if val <? 0 then
    Ok ("-" +:+ format_rupiah (Z.abs val) +:+ "🔴➺" +:+ gram_str +:+ "gr")
  else
    Ok (format_rupiah 0 +:+ "➖➺" +:+ gram_str +:+ "gr").

Definition calc_profit (h : pydict) (modal pokok : Z) : res string :=
  try_except (calc_profit_try h modal pokok) (Ok "-").

(** ** What the code takes from its libraries

    The float parser behind [float(s)], [datetime.strptime] with the
    format ["%Y-%m-%d %H:%M:%S"], and the JSON encoder chosen at import
    time ([orjson] or [json]) are library code; the development is
    parametric in them. *)

Record datetime := { weekday : nat; strftime_HMS : string }.

Class PyRuntime := {
  (** [float(s)] on a string; [None] when it raises [ValueError]. *)
  float_of_str : string -> option pyfloat;
  (** [datetime.strptime(s, "%Y-%m-%d %H:%M:%S")]; [None] when it raises. *)
  strptime : string -> option datetime;
  (** [json_dumps_bytes] *)
  json_dumps_bytes : pyval -> string;
}.

(** ** Module-level state and constants *)

Definition MAX_HISTORY : nat := 1441.
Definition MAX_USD_HISTORY : nat := 11.
Definition API_POLL_INTERVAL : Z := 20.
Definition USD_POLL_INTERVAL : Z := 300.
Definition BROADCAST_DEBOUNCE : Z := 8.
Definition MAX_CONNECTIONS : nat := 500.
Definition BROADCAST_CHUNK_SIZE : nat := 50.
Definition STATE_CACHE_TTL : Z := 50.

Definition HARI_INDO : list string :=
  ["Senin"; "Selasa"; "Rabu"; "Kamis"; "Jumat"; "Sabtu"; "Minggu"].

(** The three status marks written by [api_loop]. *)
Definition ROCKET : string := "🚀".
Definition DOWN : string := "🔻".
Definition FLAT : string := "➖".

(** Keys of the [shown_updates] set: the hashable values an [updated_at]
    field can carry. [True == 1] and [False == 0] in Python, so bools and
    ints share [inl]. *)
Abbreviation pykey := (option (Z + string)).

(** [hash(v)]: lists and dicts are unhashable. *)
Definition py_key (v : pyval) : res pykey :=
  match v with
  | PNone => Ok None
  | PBool b => Ok (Some (inl (if b then 1 else 0)))
  | PInt z => Ok (Some (inl z))
  | PStr s => Ok (Some (inr s))
  | PList _ | PDict _ => Raise TypeError
  end.

Record Globals := {
  history : list pydict;
  usd_idr_history : list pydict;
  last_buy : option Z;
  shown_updates : gset pykey;
  treasury_info : string;
}.

Definition initial_globals : Globals :=
  {| history := [];
     usd_idr_history := [];
     last_buy := None;
     shown_updates := ∅;
     treasury_info := "Belum ada info treasury." |}.

(** [deque(maxlen=n).append(x)]: append on the right, then drop the
    leftmost item when the length exceeds [n]. *)
Definition deque_append {A} (maxlen : nat) (d : list A) (x : A) : list A :=
  let d' := d ++ [x] in
  if (maxlen <? length d')%nat then tail d' else d'.

(** ** Snapshot building *)

Section Snapshot.
Context `{PyRuntime}.

(** An [lru_cache]-wrapped function hashes its arguments before the body
    runs. *)
Definition lru_cache_key (v : pyval) : res unit :=
  _ ← py_key v; Ok tt.

(** [f"{n:,}".replace(",", ".")] reached with an arbitrary value. *)
Definition py_format_rupiah (n : pyval) : res string :=
  _ ← lru_cache_key n;
  match n with
  | PInt z => Ok (format_rupiah z)
  | PBool b => Ok (format_rupiah (if b then 1 else 0))
  | PStr _ => Raise ValueError
  | _ => Raise TypeError
  end.

(** [abs(v)] *)
Definition py_abs (v : pyval) : res pyval :=
  match v with
  | PInt z => Ok (PInt (Z.abs z))
  | PBool b => Ok (PInt (if b then 1 else 0))
  | _ => Raise TypeError
  end.

(** [f"{v}"] on a hashable value. Lists and dicts never get here: the
    callers pass values that went through an [lru_cache] before. *)
Definition py_str (v : pyval) : res string :=
  match v with
  | PNone => Ok "None"
  | PBool b => Ok (if b then "True" else "False")
  | PInt z => Ok (if z <? 0 then "-" +:+ string_of_chars (digits (Z.abs z))
                  else string_of_chars (digits z))
  | PStr s => Ok s
  | PList _ | PDict _ => Raise TypeError
  end.

Definition get_day_time (date_str : pyval) : res pyval :=
  _ ← lru_cache_key date_str;
  try_except
    (match date_str with
     | PStr s =>
         match strptime s with
         | Some dt =>
             match nth_error HARI_INDO (weekday dt) with
             | Some day => Ok (PStr (day +:+ " " +:+ strftime_HMS dt))
             | None => Raise IndexError
             end
         | None => Raise ValueError
         end
     | _ => Raise TypeError
     end)
    (Ok date_str).

Definition format_waktu_only (date_str status : pyval) : res string :=
  d ← get_day_time date_str;
  ds ← py_str d;
  ss ← py_str status;
  Ok (ds +:+ ss).

Definition py_is_str (v : pyval) (s : string) : bool :=
  match v with
  | PStr s' => String.eqb s' s
  | _ => false
  end.

Definition format_diff_display (diff status : pyval) : res string :=
  _ ← lru_cache_key diff;
  _ ← lru_cache_key status;
  if py_is_str status ROCKET then
    r ← py_format_rupiah diff;
    Ok (ROCKET +:+ "+" +:+ r)
  else if py_is_str status DOWN then
    a ← py_abs diff;
    r ← py_format_rupiah a;
    Ok (DOWN +:+ "-" +:+ r)
  else Ok "➖tetap".

Definition format_transaction_display (buy sell diff_display : string) : string :=
  "Beli: " +:+ buy +:+ "<br>Jual: " +:+ sell +:+ "<br>" +:+ diff_display.

Definition profit_config (i : nat) : Z * Z :=
  nth i PROFIT_CONFIGS (0, 0).

Definition build_single_history_item (h : pydict) : res pyval :=
  b ← getitem h "buying_rate";
  buy_fmt ← py_format_rupiah b;
  s ← getitem h "selling_rate";
  sell_fmt ← py_format_rupiah s;
  st ← getitem h "status";
  diff_display ← format_diff_display (dict_get h "diff" (PInt 0)) st;
  created ← getitem h "created_at";
  st' ← getitem h "status";
  waktu ← format_waktu_only created st';
  created' ← getitem h "created_at";
  jt20 ← calc_profit h (profit_config 0).1 (profit_config 0).2;
  jt30 ← calc_profit h (profit_config 1).1 (profit_config 1).2;
  jt40 ← calc_profit h (profit_config 2).1 (profit_config 2).2;
  jt50 ← calc_profit h (profit_config 3).1 (profit_config 3).2;
  Ok (PDict
    [ ("buying_rate", PStr buy_fmt);
      ("selling_rate", PStr sell_fmt);
      ("waktu_display", PStr waktu);
      ("diff_display", PStr diff_display);
      ("transaction_display",
         PStr (format_transaction_display buy_fmt sell_fmt diff_display));
      ("created_at", created');
      ("jt20", PStr jt20);
      ("jt30", PStr jt30);
      ("jt40", PStr jt40);
      ("jt50", PStr jt50) ]).

(** A list comprehension whose element expression may raise. *)
Fixpoint comprehension {A B} (f : A -> res B) (l : list A) : res (list B) :=
  match l with
  | [] => Ok []
  | x :: l' => y ← f x; ys ← comprehension f l'; Ok (y :: ys)
  end.

Definition build_history_data (g : Globals) : res (list pyval) :=
  comprehension build_single_history_item (history g).

Definition build_usd_idr_item (h : pydict) : res pyval :=
  p ← getitem h "price";
  t ← getitem h "time";
  Ok (PDict [("price", p); ("time", t)]).

Definition build_usd_idr_data (g : Globals) : res (list pyval) :=
  comprehension build_usd_idr_item (usd_idr_history g).

Definition build_full_state_bytes (g : Globals) : res string :=
  hist ← build_history_data g;
  usd ← build_usd_idr_data g;
  Ok (json_dumps_bytes (PDict
    [ ("history", PList hist);
      ("usd_idr_history", PList usd);
      ("treasury_info", PStr (treasury_info g)) ])).

End Snapshot.

(** ** The price poller, [api_loop] *)

Section Pollers.
Context `{PyRuntime}.

(** [float(v)] *)
Definition py_float (v : pyval) : res pyfloat :=
  match v with
  | PInt z => float_of_int z
  | PBool b => float_of_int (if b then 1 else 0)
  | PStr s =>
      match float_of_str s with
      | Some f => Ok f
      | None => Raise ValueError
      end
  | PNone | PList _ | PDict _ => Raise TypeError
  end.

(** [int(float(v))] *)
Definition py_int_float (v : pyval) : res Z :=
  f ← py_float v; int_of_float f.

(** [buy and sell and upd and upd not in shown_updates], left to right
    with short circuit; [in] hashes [upd]. *)
Definition update_guard (shown : gset pykey) (buy sell upd : pyval) : res bool :=
  if truthy buy && truthy sell && truthy upd then
    k ← py_key upd;
    Ok (bool_decide (k ∉ shown))
  else Ok false.

(** The status mark and the diff of a new buy rate against [last_buy]. *)
Definition diff_of (last : option Z) (buy : Z) : Z :=
  match last with
  | None => 0
  | Some l => buy - l
  end.

Definition status_of (last : option Z) (buy : Z) : string :=
  match last with
  | None => FLAT
  | Some l =>
      if l <? buy then ROCKET
      else if buy <? l then DOWN
      else FLAT
  end.

Definition price_item (buy sell : Z) (status : string) (diff : Z) (upd : pyval)
  : pydict :=
  [ ("buying_rate", PInt buy);
    ("selling_rate", PInt sell);
    ("status", PStr status);
    ("diff", PInt diff);
    ("created_at", upd) ].

(** [shown_updates.add(upd)] followed by the size check. *)
Definition remember_update (shown : gset pykey) (k : pykey) : gset pykey :=
  let shown' := {[ k ]} ∪ shown in
  if (5000 <? size shown')%nat then {[ k ]} else shown'.

(** The statements under the guard, from the conversion to the update of
    [shown_updates]. The conversions are the only statements that can
    raise and they come first. *)
Definition record_price (g : Globals) (buy sell upd : pyval) (k : pykey)
  : res Globals :=
  b ← py_int_float buy;
  s ← py_int_float sell;
  let diff := diff_of (last_buy g) b in
  let status := status_of (last_buy g) b in
  Ok {| history :=
          deque_append MAX_HISTORY (history g) (price_item b s status diff upd);
        usd_idr_history := usd_idr_history g;
        last_buy := Some b;
        shown_updates := remember_update (shown_updates g) k;
        treasury_info := treasury_info g |}.

(** The statements of the [if result:] branch after the counter reset.
    The boolean tells whether [debouncer.schedule_broadcast()] was
    spawned. *)
Definition apply_result (g : Globals) (result : pyval) : res (Globals * bool) :=
  data ← py_get result "data" (PDict []);
  buy ← py_get data "buying_rate" PNone;
  sell ← py_get data "selling_rate" PNone;
  upd ← py_get data "updated_at" PNone;
  ok ← update_guard (shown_updates g) buy sell upd;
  if (ok : bool) then
    k ← py_key upd;
    g' ← record_price g buy sell upd k;
    Ok (g', true)
  else Ok (g, false).

(** [min(0.1 * consecutive_errors, 2.0)], the sleep of the [except
    Exception] handler. *)
Definition backoff (n : Z) : Z := Z.min (100 * n) 2000.

Record ApiLoop := {
  api_globals : Globals;
  consecutive_errors : Z;
}.

Record Turn := {
  slept : Z;          (** the argument of the [asyncio.sleep] that ends the turn *)
  spawned : bool;     (** whether [schedule_broadcast] was spawned *)
}.

(** [if result:] on what [fetch_treasury_price] returned; [None] is the
    Python [None]. *)
Definition fetched (result : option pyval) : option pyval :=
  match result with
  | Some v => if truthy v then Some v else None
  | None => None
  end.

(** One turn of the [while True] loop of [api_loop], given what the fetch
    returned. *)
Definition api_turn (st : ApiLoop) (result : option pyval) : ApiLoop * Turn :=
  match fetched result with
  | Some v =>
      (* consecutive_errors = 0 *)
      match apply_result (api_globals st) v with
      | Ok (g', sp) =>
          ({| api_globals := g'; consecutive_errors := 0 |},
           {| slept := API_POLL_INTERVAL; spawned := sp |})
      | Raise _ =>
          (* except Exception *)
          let n := 0 + 1 in
          ({| api_globals := api_globals st; consecutive_errors := n |},
           {| slept := backoff n; spawned := false |})
      end
  | None =>
      (* else: consecutive_errors += 1 *)
      ({| api_globals := api_globals st;
          consecutive_errors := consecutive_errors st + 1 |},
       {| slept := API_POLL_INTERVAL; spawned := false |})
  end.

Definition api_start (g : Globals) : ApiLoop :=
  {| api_globals := g; consecutive_errors := 0 |}.

(** The loop over a finite run of fetch results: final state and the turns
    taken, oldest first. *)
Fixpoint api_loop (st : ApiLoop) (results : list (option pyval))
  : ApiLoop * list Turn :=
  match results with
  | [] => (st, [])
  | r :: rs =>
      let '(st', t) := api_turn st r in
      let '(st'', ts) := api_loop st' rs in
      (st'', t :: ts)
  end.

(** ** The rate poller, [usd_idr_loop] *)

Definition rate_item (price time : string) : pydict :=
  [("price", PStr price); ("time", PStr time)].

(** [not usd_idr_history or usd_idr_history[-1]["price"] != price] *)
Definition should_update (hist : list pydict) (price : string) : res bool :=
  match last hist with
  | None => Ok true
  | Some h => p ← getitem h "price"; Ok (negb (py_is_str p price))
  end.

(** One turn of [usd_idr_loop]: [price] is what [fetch_usd_idr_price]
    returned, [now_wib] the formatted wall clock. *)
Definition usd_turn (g : Globals) (price : option string) (now_wib : string)
  : Globals * Turn :=
  match price with
  | Some p =>
      if negb (String.eqb p "") then
        match should_update (usd_idr_history g) p with
        | Ok true =>
            ({| history := history g;
                usd_idr_history :=
                  deque_append MAX_USD_HISTORY (usd_idr_history g)
                    (rate_item p now_wib);
                last_buy := last_buy g;
                shown_updates := shown_updates g;
                treasury_info := treasury_info g |},
             {| slept := USD_POLL_INTERVAL; spawned := true |})
        | Ok false => (g, {| slept := USD_POLL_INTERVAL; spawned := false |})
        | Raise _ => (g, {| slept := 1000; spawned := false |})
        end
      else (g, {| slept := USD_POLL_INTERVAL; spawned := false |})
  | None => (g, {| slept := USD_POLL_INTERVAL; spawned := false |})
  end.

End Pollers.

(** ** The annotation command, [atur_handler] *)

(** [s.replace(old, new)] for a non-empty [old]: leftmost, non-overlapping
    occurrences. [skip] counts the characters of a match still to drop. *)
Fixpoint str_replace_go (old new : string) (skip : nat) (s : string) : string :=
  match s with
  | EmptyString => EmptyString
  | String c s' =>
      match skip with
      | S k => str_replace_go old new k s'
      | O =>
          if String.prefix old s
          then new +:+ str_replace_go old new (String.length old - 1) s'
          else String c (str_replace_go old new 0 s')
      end
  end.

Definition str_replace (old new s : string) : string :=
  str_replace_go old new 0 s.

Definition NEWLINE : string := String (ascii_of_nat 10) EmptyString.

(** The handler of [/atur <text>]; [text] is [message.text.partition(' ')[2]]. *)
Definition atur_handler (g : Globals) (text : string) : Globals * bool :=
  if negb (String.eqb text "") then
    ({| history := history g;
        usd_idr_history := usd_idr_history g;
        last_buy := last_buy g;
        shown_updates := shown_updates g;
        treasury_info :=
          str_replace NEWLINE "<br>" (str_replace "  " "&nbsp;&nbsp;" text) |},
     true)
  else (g, false).

(** ** [StateCache] *)

Record StateCache := {
  _cache : option string;
  _cache_time : Z;
  _version : nat;
}.

Definition new_state_cache : StateCache :=
  {| _cache := None; _cache_time := 0; _version := 0 |}.

Definition invalidate (c : StateCache) : StateCache :=
  {| _cache := None; _cache_time := _cache_time c; _version := S (_version c) |}.

(** [self._cache and (now - self._cache_time) < STATE_CACHE_TTL]: the
    cached bytes when the test passes. Empty bytes are falsy. *)
Definition fresh_cache (c : StateCache) (now : Z) : option string :=
  match _cache c with
  | Some b =>
      if negb (String.eqb b "") && (now - _cache_time c <? STATE_CACHE_TTL)
      then Some b else None
  | None => None
  end.

(** What a call of [get_state_bytes] did. *)
Record Fetched := {
  returned : res string;     (** the bytes, or the exception of the builder *)
  rebuilt : bool;            (** whether [build_full_state_bytes] ran *)
}.

Section Cache.
Context `{PyRuntime}.

(** [get_state_bytes] at clock reading [now], over the globals [g]. The
    lock is free whenever the call starts: no holder suspends inside the
    locked region, so the whole call is one transition and the second
    test sees what the first saw. *)
Definition get_state_bytes (c : StateCache) (now : Z) (g : Globals)
  : StateCache * Fetched :=
  match fresh_cache c now with
  | Some b => (c, {| returned := Ok b; rebuilt := false |})
  | None =>
      (* async with self._lock *)
      match fresh_cache c now with
      | Some b => (c, {| returned := Ok b; rebuilt := false |})
      | None =>
          match build_full_state_bytes g with
          | Ok b =>
              ({| _cache := Some b; _cache_time := now; _version := _version c |},
               {| returned := Ok b; rebuilt := true |})
          | Raise e => (c, {| returned := Raise e; rebuilt := true |})
          end
      end
  end.

(** A run of calls by several tasks, at the given clock readings, with no
    other transition in between: the number of rebuilds and the values
    returned. *)
Fixpoint get_state_bytes_many (c : StateCache) (g : Globals) (times : list Z)
  : StateCache * list Fetched :=
  match times with
  | [] => (c, [])
  | t :: ts =>
      let '(c', f) := get_state_bytes c t g in
      let '(c'', fs) := get_state_bytes_many c' g ts in
      (c'', f :: fs)
  end.

End Cache.

Definition rebuild_count (fs : list Fetched) : nat :=
  length (filter (fun f => rebuilt f = true) fs).

(** ** [ConnectionManager] *)

(** A [WebSocket] object, by identity. *)
Abbreviation ws := nat.

Definition connect (conns : gset ws) (w : ws) : gset ws * bool :=
  if (MAX_CONNECTIONS <=? size conns)%nat then (conns, false)
  else ({[ w ]} ∪ conns, true).

Definition disconnect (conns : gset ws) (w : ws) : gset ws :=
  conns ∖ {[ w ]}.

Definition count (conns : gset ws) : nat := size conns.

(** How a [ws.send_bytes(message)] goes: it completes or raises after
    [d] milliseconds, or never returns. *)
Inductive sending :=
| Completes (d : Z)
| Raises (d : Z)
| Hangs.

Definition SEND_TIMEOUT : Z := 5000.

(** [asyncio.wait_for(aw, timeout)]: the result and the time it took. *)
Definition wait_for (aw : sending) (timeout : Z) : res unit * Z :=
  match aw with
  | Completes d => if d <? timeout then (Ok tt, d) else (Raise TimeoutError, timeout)
  | Raises d => if d <? timeout then (Raise SendError, d) else (Raise TimeoutError, timeout)
  | Hangs => (Raise TimeoutError, timeout)
  end.

(** [_send_safe]: [True] when the send got through, [False] on any
    exception, with the time it took. *)
Definition _send_safe (aw : sending) : bool * Z :=
  let '(r, elapsed) := wait_for aw SEND_TIMEOUT in
  match try_except (_ ← r; Ok true) (Ok false) with
  | Ok b => (b, elapsed)
  | Raise _ => (false, elapsed)
  end.

(** [range(0, n, step)] *)
Definition range_step (n step : nat) : list nat :=
  map (fun k => (k * step)%nat) (seq 0 (Nat.div (n + step - 1) step)).

(** The chunks [connections[i:i + BROADCAST_CHUNK_SIZE]]. *)
Definition chunks (connections : list ws) : list (list ws) :=
  map (fun i => take BROADCAST_CHUNK_SIZE (drop i connections))
      (range_step (length connections) BROADCAST_CHUNK_SIZE).

(** The members of one chunk whose [_send_safe] returned [False]. *)
Definition chunk_failed (net : ws -> sending) (chunk : list ws) : list ws :=
  filter (fun w => (_send_safe (net w)).1 = false) chunk.

(** The [failed] list once every chunk has been gathered. *)
Definition broadcast_failed (net : ws -> sending) (connections : list ws)
  : list ws :=
  concat (map (chunk_failed net) (chunks connections)).

(** The time one chunk takes: its slowest send. *)
Definition chunk_elapsed (net : ws -> sending) (chunk : list ws) : Z :=
  foldr Z.max 0 (map (fun w => (_send_safe (net w)).2) chunk).

(** The closing loop [for ws in failed: self.disconnect(ws)]. *)
Definition disconnect_all (conns : gset ws) (failed : list ws) : gset ws :=
  foldl disconnect conns failed.

(** [broadcast]: [conns] is the registry when the call starts, [later]
    what the registry has become when the last chunk has been gathered
    (other tasks connect and disconnect while the sends are awaited). *)
Definition broadcast_among (net : ws -> sending) (conns later : gset ws)
  : gset ws :=
  if bool_decide (conns = ∅) then later
  else disconnect_all later (broadcast_failed net (elements conns)).

(** [broadcast] with no other task touching the registry meanwhile. *)
Definition broadcast (net : ws -> sending) (conns : gset ws) : gset ws :=
  broadcast_among net conns conns.

(** ** [BroadcastDebouncer] and the tasks around it *)

(** The event loop state the debounce path touches. [_last_broadcast] is
    written after the broadcast and never read; it is left out. *)
Record System := {
  globals : Globals;
  api_errors : Z;             (** [consecutive_errors] of [api_loop] *)
  state_cache : StateCache;
  _pending : bool;
  created : nat;              (** [schedule_broadcast] tasks created, not yet started *)
  sleeping : list Z;          (** wake-up times of the tasks in [asyncio.sleep] *)
  broadcasts : list string;   (** messages handed to [manager.broadcast], oldest first *)
  rebuilds : nat;             (** runs of [build_full_state_bytes] *)
}.

Definition boot : System :=
  {| globals := initial_globals;
     api_errors := 0;
     state_cache := new_state_cache;
     _pending := false;
     created := 0;
     sleeping := [];
     broadcasts := [];
     rebuilds := 0 |}.

(** One transition of the event loop. Clock readings are in the events. *)
Inductive event :=
| PriceFetched (result : option pyval)        (** a turn of [api_loop] *)
| RateFetched (price : option string) (now_wib : string)
                                              (** a turn of [usd_idr_loop] *)
| Atur (text : string)                        (** the [/atur] command *)
| Notify (now : Z)        (** a created [schedule_broadcast] runs up to its sleep *)
| Wake (now : Z)          (** a sleeping [schedule_broadcast] resumes *)
| Read (now : Z).         (** [get_state_bytes] from [/api/state] or a new socket *)

Definition with_globals (s : System) (g : Globals) (errs : Z) (sp : bool) : System :=
  {| globals := g;
     api_errors := errs;
     state_cache := state_cache s;
     _pending := _pending s;
     created := if sp then S (created s) else created s;
     sleeping := sleeping s;
     broadcasts := broadcasts s;
     rebuilds := rebuilds s |}.

Section EventLoop.
Context `{PyRuntime}.

(** [schedule_broadcast] from its first line to [await asyncio.sleep]. *)
Definition schedule_broadcast_start (s : System) (now : Z) : System :=
  if _pending s then
    {| globals := globals s; api_errors := api_errors s;
       state_cache := state_cache s;
       _pending := true;
       created := pred (created s);
       sleeping := sleeping s;
       broadcasts := broadcasts s; rebuilds := rebuilds s |}
  else
    {| globals := globals s; api_errors := api_errors s;
       state_cache := invalidate (state_cache s);
       _pending := true;
       created := pred (created s);
       sleeping := sleeping s ++ [now + BROADCAST_DEBOUNCE];
       broadcasts := broadcasts s; rebuilds := rebuilds s |}.

(** [schedule_broadcast] from the return of the sleep to the call of
    [manager.broadcast(message)]. *)
Definition schedule_broadcast_resume (s : System) (now : Z) : System :=
  let '(c, f) := get_state_bytes (state_cache s) now (globals s) in
  {| globals := globals s; api_errors := api_errors s;
     state_cache := c;
     _pending := false;
     created := created s;
     sleeping := tail (sleeping s);
     broadcasts :=
       match returned f with
       | Ok message => broadcasts s ++ [message]
       | Raise _ => broadcasts s
       end;
     rebuilds := if rebuilt f then S (rebuilds s) else rebuilds s |}.

Definition read_state (s : System) (now : Z) : System :=
  let '(c, f) := get_state_bytes (state_cache s) now (globals s) in
  {| globals := globals s; api_errors := api_errors s;
     state_cache := c;
     _pending := _pending s;
     created := created s;
     sleeping := sleeping s;
     broadcasts := broadcasts s;
     rebuilds := if rebuilt f then S (rebuilds s) else rebuilds s |}.

(** [None] when the event cannot happen in [s]: no task to start, or no
    sleeper whose time has come. *)
Definition step (s : System) (e : event) : option System :=
  match e with
  | PriceFetched result =>
      let '(st, t) :=
        api_turn {| api_globals := globals s; consecutive_errors := api_errors s |}
                 result in
      Some (with_globals s (api_globals st) (consecutive_errors st) (spawned t))
  | RateFetched price now_wib =>
      let '(g, t) := usd_turn (globals s) price now_wib in
      Some (with_globals s g (api_errors s) (spawned t))
  | Atur text =>
      let '(g, sp) := atur_handler (globals s) text in
      Some (with_globals s g (api_errors s) sp)
  | Notify now =>
      match created s with
      | O => None
      | S _ => Some (schedule_broadcast_start s now)
      end
  | Wake now =>
      match sleeping s with
      | due :: _ => if due <=? now then Some (schedule_broadcast_resume s now) else None
      | [] => None
      end
  | Read now => Some (read_state s now)
  end.

Fixpoint run (s : System) (es : list event) : option System :=
  match es with
  | [] => Some s
  | e :: es' =>
      match step s e with
      | Some s' => run s' es'
      | None => None
      end
  end.

End EventLoop.

(** ** A runtime to execute the model on examples

    A compact JSON writer that copies string bytes and escapes the quote
    and the backslash, a float parser for strings of decimal digits, and
    a date parser that accepts nothing. They agree with the Python
    libraries on the values the examples below use: identifiers that are
    not dates, rates written as digits, text without control
    characters. *)

Definition DQUOTE : ascii := ascii_of_nat 34.

Definition BACKSLASH : ascii := ascii_of_nat 92.

Fixpoint json_escape (s : string) : string :=
  match s with
  | EmptyString => EmptyString
  | String c s' =>
      if Ascii.eqb c DQUOTE || Ascii.eqb c BACKSLASH
      then String BACKSLASH (String c (json_escape s'))
      else String c (json_escape s')
  end.

Definition json_string (s : string) : string :=
  String DQUOTE (json_escape s) +:+ String DQUOTE EmptyString.

Fixpoint json_compact (v : pyval) : string :=
  match v with
  | PNone => "null"
  | PBool b => if b then "true" else "false"
  | PInt z => if z <? 0 then "-" +:+ string_of_chars (digits (Z.abs z))
              else string_of_chars (digits z)
  | PStr s => json_string s
  | PList l =>
      "[" +:+
      (fix items (l : list pyval) : string :=
         match l with
         | [] => ""
         | [x] => json_compact x
         | x :: l' => json_compact x +:+ "," +:+ items l'
         end) l
      +:+ "]"
  | PDict d =>
      "{" +:+
      (fix members (d : list (string * pyval)) : string :=
         match d with
         | [] => ""
         | [(k, x)] => json_string k +:+ ":" +:+ json_compact x
         | (k, x) :: d' => json_string k +:+ ":" +:+ json_compact x +:+ "," +:+ members d'
         end) d
      +:+ "}"
  end.

Definition is_digit (c : ascii) : bool :=
  let n := nat_of_ascii c in ((48 <=? n) && (n <=? 57))%nat.

Fixpoint digits_value (acc : Z) (s : string) : option Z :=
  match s with
  | EmptyString => Some acc
  | String c s' =>
      if is_digit c
      then digits_value (10 * acc + Z.of_nat (nat_of_ascii c - 48)) s'
      else None
  end.

Definition float_of_digits (s : string) : option pyfloat :=
  match s with
  | EmptyString => None
  | _ =>
      match digits_value 0 s with
      | Some z => Some (binary_normalize fprec femax z 0 false)
      | None => None
      end
  end.

Definition sample_runtime : PyRuntime :=
  {| float_of_str := float_of_digits;
     strptime := fun _ => None;
     json_dumps_bytes := json_compact |}.

(** Fetch results in the shape the price API answers with, and a burst in
    which a reader calls [get_state_bytes] between two changes. *)
Definition price_doc (buy sell upd : pyval) : pyval :=
  PDict [("data", PDict [("buying_rate", buy);
                         ("selling_rate", sell);
                         ("updated_at", upd)])].

Definition tick_U1 : pyval := price_doc (PInt 1000000) (PStr "990000") (PStr "U1").
Definition tick_U1_again : pyval := price_doc (PInt 1020000) (PInt 1000000) (PStr "U1").
Definition tick_U2 : pyval := price_doc (PInt 1050000) (PInt 1040000) (PStr "U2").

Definition burst_with_reader : list event :=
  [ PriceFetched (Some tick_U1); Notify 0; Read 1;
    PriceFetched (Some tick_U2); Notify 2; Wake 8 ].

(** A tick with the update id [n], and the first [n] of them. *)
Definition numbered_tick (n : nat) : event :=
  PriceFetched
    (Some (price_doc (PInt 1000000) (PInt 990000) (PInt (Z.of_nat n)))).

Definition many_ticks (n : nat) : list event := numbered_tick <$> seq 1 n.

Definition numbered_key (n : nat) : pykey := Some (inl (Z.of_nat n)).

(** Eleven rates, each different from the one before. *)
Definition eleven_rates : list event :=
  [ RateFetched (Some "16.001") "10:01:00";
    RateFetched (Some "16.002") "10:02:00";
    RateFetched (Some "16.003") "10:03:00";
    RateFetched (Some "16.004") "10:04:00";
    RateFetched (Some "16.005") "10:05:00";
    RateFetched (Some "16.006") "10:06:00";
    RateFetched (Some "16.007") "10:07:00";
    RateFetched (Some "16.008") "10:08:00";
    RateFetched (Some "16.009") "10:09:00";
    RateFetched (Some "16.010") "10:10:00";
    RateFetched (Some "16.011") "10:11:00" ].

(** The events of other tasks that leave the snapshot cache alone. *)
Definition quiet (e : event) : bool :=
  match e with
  | Read _ | Wake _ => false
  | _ => true
  end.

(** ** Invariants of the module-level state *)

(** What holds from the first [schedule_broadcast] of a burst until its
    wake-up, as long as nobody else reads the cache. *)
Record in_window (s0 s : System) (due : Z) : Prop := {
  win_pending : _pending s = true;
  win_cache : _cache (state_cache s) = None;
  win_sleeping : sleeping s = [due];
  win_broadcasts : broadcasts s = broadcasts s0;
}.


(** The buy rate of the newest item of the price history. *)
Definition prev_buy (hist : list pydict) : option Z :=
  match last hist with
  | Some item =>
      match dict_lookup "buying_rate" item with
      | Some (PInt b) => Some b
      | _ => None
      end
  | None => None
  end.

(** The items [api_loop] and [usd_idr_loop] store. *)
Definition stored_price_item (item : pydict) : Prop :=
  ∃ b s st d upd k, item = price_item b s st d upd ∧ py_key upd = Ok k.

Definition stored_rate_item (item : pydict) : Prop :=
  ∃ p t, item = rate_item p t.

Record globals_inv (g : Globals) : Prop := {
  inv_history_len : (length (history g) ≤ MAX_HISTORY)%nat;
  inv_usd_len : (length (usd_idr_history g) ≤ MAX_USD_HISTORY)%nat;
  inv_shown_size : (size (shown_updates g) ≤ 5000)%nat;
  inv_last_buy : last_buy g = prev_buy (history g);
  inv_price_items : Forall stored_price_item (history g);
  inv_rate_items : Forall stored_rate_item (usd_idr_history g);
}.

(** The items of a history whose [created_at] hashes to [k]. *)
Definition items_with_id (k : pykey) (hist : list pydict) : list pydict :=
  filter (fun item => (v ← getitem item "created_at"; py_key v) = Ok k) hist.

(** The [updated_at] field a fetch result carries. *)
Definition update_id (result : pyval) : res pyval :=
  data ← py_get result "data" (PDict []);
  py_get data "updated_at" PNone.

(** ** The rest of [StateCache] and [ConnectionManager] *)

Section SyncCache.
Context `{PyRuntime}.

(** [get_state_bytes_sync]: the cached bytes whenever there are some,
    with no look at the clock. *)
Definition get_state_bytes_sync (c : StateCache) (now : Z) (g : Globals)
  : StateCache * Fetched :=
  let rebuild :=
    match build_full_state_bytes g with
    | Ok b =>
        ({| _cache := Some b; _cache_time := now; _version := _version c |},
         {| returned := Ok b; rebuilt := true |})
    | Raise e => (c, {| returned := Raise e; rebuilt := true |})
    end in
  match _cache c with
  | Some b =>
      if negb (String.eqb b "")
      then (c, {| returned := Ok b; rebuilt := false |})
      else rebuild
  | None => rebuild
  end.

End SyncCache.

(** One turn of [heartbeat_loop] after its 15 s sleep. *)
Definition heartbeat_turn (net : ws -> sending) (conns : gset ws) : gset ws :=
  if (0 <? count conns)%nat then broadcast net conns else conns.

(** The calls that touch the registry. *)
Inductive registry_op :=
| RegConnect (w : ws)
| RegDisconnect (w : ws)
| RegBroadcast (net : ws -> sending)
| RegHeartbeat (net : ws -> sending).

Definition registry_step (conns : gset ws) (op : registry_op) : gset ws :=
  match op with
  | RegConnect w => (connect conns w).1
  | RegDisconnect w => disconnect conns w
  | RegBroadcast net => broadcast net conns
  | RegHeartbeat net => heartbeat_turn net conns
  end.

(** The time [broadcast] takes: the chunks are awaited one after the
    other. *)
Definition broadcast_elapsed (net : ws -> sending) (connections : list ws) : Z :=
  foldr Z.add 0 (map (chunk_elapsed net) (chunks connections)).

(** ** The socket handler, [websocket_endpoint] *)

(** The ASGI message [ws.receive()] returns. *)
Record asgi_message := {
  msg_type : string;
  msg_text : option string;
  msg_bytes : option string;
}.

(** What one [await asyncio.wait_for(ws.receive(), timeout=45.0)] gives. *)
Inductive received :=
| Got (data : asgi_message)
| Idle                       (** [asyncio.TimeoutError] after 45 s *)
| Broken.                    (** [WebSocketDisconnect] or another exception *)

Inductive frame :=
| Bytes (payload : string)
| Close (code : Z).

Definition PONG : string :=
  String "{" (String DQUOTE "pong" +:+ String DQUOTE ":true}").
Definition PING : string :=
  String "{" (String DQUOTE "ping" +:+ String DQUOTE ":true}").

(** [field == "ping"] on a field that may be absent. *)
Definition field_is (field : option string) (s : string) : bool :=
  match field with
  | Some t => String.eqb t s
  | None => false
  end.

Definition is_ping (data : asgi_message) : bool :=
  field_is (msg_text data) "ping" || field_is (msg_bytes data) "ping".

(** How an [await ws.send_bytes(...)] ends. *)
Inductive sent :=
| Sent
| SendTimedOut               (** it raised [asyncio.TimeoutError] *)
| SendFailed.                (** it raised another exception *)

(** One turn of the [while True] loop: what [receive] gives, how the pong
    of the [try] body ends if the turn sends one, and how the ping of the
    [except asyncio.TimeoutError] handler ends if the turn gets there. *)
Record loop_turn := {
  delivered : received;
  pong_send : sent;
  ping_send : sent;
}.

(** The [except asyncio.TimeoutError] handler: a ping is sent, and the
    bare [except] around it leaves the loop whatever the send raised.
    [None] stands for [break]. *)
Definition keep_alive (ping : sent) : option frame :=
  match ping with
  | Sent => Some (Bytes PING)
  | SendTimedOut | SendFailed => None
  end.

(** The [while True] loop of the handler over its turns. The result is
    the frames sent and whether the loop was exited ([false]: the handler
    is still waiting in [receive]). A timeout raised anywhere in the [try]
    body, by [wait_for] or by the [send_bytes] of the pong, is caught by
    the handler of the loop; any other exception leaves the loop for the
    handlers of the outer [try]. *)
Fixpoint receive_loop (inputs : list loop_turn) : list frame * bool :=
  match inputs with
  | [] => ([], false)
  | turn :: rest =>
      match delivered turn with
      | Got data =>
          if String.eqb (msg_type data) "websocket.disconnect" then ([], true)
          else if is_ping data then
            match pong_send turn with
            | Sent =>
                let '(frames, over) := receive_loop rest in
                (Bytes PONG :: frames, over)
            | SendTimedOut =>
                match keep_alive (ping_send turn) with
                | Some ping =>
                    let '(frames, over) := receive_loop rest in
                    (ping :: frames, over)
                | None => ([], true)
                end
            | SendFailed => ([], true)
            end
          else receive_loop rest
      | Idle =>
          match keep_alive (ping_send turn) with
          | Some ping =>
              let '(frames, over) := receive_loop rest in
              (ping :: frames, over)
          | None => ([], true)
          end
      | Broken => ([], true)
      end
  end.

Record Session := {
  frames_sent : list frame;
  returned_from : bool;           (** whether the handler has returned *)
  registry_after : gset ws;
  cache_after : StateCache;
}.

Section Endpoint.
Context `{PyRuntime}.

(** [websocket_endpoint] for the socket [w]: [conns] is the registry at
    the call of [connect], [later] maps the registry after admission to
    what other tasks have made of it when the handler reaches its
    [finally] clause, [first_ok] tells whether the first [send_bytes] goes
    through. *)
Definition websocket_endpoint
    (conns : gset ws) (later : gset ws -> gset ws) (c : StateCache) (now : Z)
    (g : Globals) (w : ws) (first_ok : bool) (inputs : list loop_turn)
  : Session :=
  let '(conns', admitted) := connect conns w in
  if negb admitted then
    {| frames_sent := [Close 1013]; returned_from := true;
       registry_after := conns'; cache_after := c |}
  else
    let '(c', f) := get_state_bytes c now g in
    match returned f with
    | Ok initial_data =>
        if first_ok then
          let '(frames, over) := receive_loop inputs in
          {| frames_sent := Bytes initial_data :: frames;
             returned_from := over;
             registry_after := if over then disconnect (later conns') w
                               else later conns';
             cache_after := c' |}
        else
          {| frames_sent := []; returned_from := true;
             registry_after := disconnect (later conns') w; cache_after := c' |}
    | Raise _ =>
        {| frames_sent := []; returned_from := true;
           registry_after := disconnect (later conns') w; cache_after := c' |}
    end.

End Endpoint.

(** A client's ping and the message of its disconnection. *)
Definition client_ping : asgi_message :=
  {| msg_type := "websocket.receive"; msg_text := Some "ping"; msg_bytes := None |}.


(** ** Relations between neighbours of a history *)

(** [R] holds between every item and the one stored right after it. *)
Definition adjacent {A} (R : A -> A -> Prop) (l : list A) : Prop :=
  ∀ i a b, l !! i = Some a → l !! S i = Some b → R a b.

(** The key of the [created_at] of a price item. *)
Definition item_key (item : pydict) : res pykey :=
  v ← getitem item "created_at"; py_key v.

Definition item_price (item : pydict) : res pyval := getitem item "price".

(** The status mark agrees with the sign of the diff. *)
Definition mark_matches_diff (item : pydict) : Prop :=
  ∃ b s st d upd,
    item = price_item b s st d upd ∧
    ((st = ROCKET ∧ 0 < d) ∨ (st = DOWN ∧ d < 0) ∨ (st = FLAT ∧ d = 0)).

Definition LINE_FEED : ascii := ascii_of_nat 10.

Fixpoint has_char (a : ascii) (s : string) : bool :=
  match s with
  | EmptyString => false
  | String c s' => Ascii.eqb c a || has_char a s'
  end.

(** Reading an amount back from its display: drop the dots, then a sign
    and decimal digits. *)
Fixpoint drop_char (a : ascii) (s : string) : string :=
  match s with
  | EmptyString => EmptyString
  | String c s' => if Ascii.eqb c a then drop_char a s' else String c (drop_char a s')
  end.

Definition unformat_rupiah (s : string) : option Z :=
  match drop_char "." s with
  | String c rest =>
      if Ascii.eqb c "-" then Z.opp <$> digits_value 0 rest
      else digits_value 0 (String c rest)
  | EmptyString => None
  end.

Section Changes.
Context `{PyRuntime}.

(** The three ways the globals change: a tick recorded by [api_loop], a
    rate recorded by [usd_idr_loop], an annotation set by [/atur]. *)
Inductive change : Globals -> Globals -> Prop :=
| change_price g buy sell upd k g' :
    py_key upd = Ok k → k ∉ shown_updates g →
    record_price g buy sell upd k = Ok g' →
    change g g'
| change_rate g p now_wib :
    p ≠ "" → should_update (usd_idr_history g) p = Ok true →
    change g
      {| history := history g;
         usd_idr_history :=
           deque_append MAX_USD_HISTORY (usd_idr_history g) (rate_item p now_wib);
         last_buy := last_buy g;
         shown_updates := shown_updates g;
         treasury_info := treasury_info g |}
| change_info g text :
    text ≠ "" →
    change g
      {| history := history g;
         usd_idr_history := usd_idr_history g;
         last_buy := last_buy g;
         shown_updates := shown_updates g;
         treasury_info :=
           str_replace NEWLINE "<br>" (str_replace "  " "&nbsp;&nbsp;" text) |}.

End Changes.

(** ** Invariants and sample values for the further properties *)

(** The newest item's id is in [shown_updates]. *)
Definition newest_id_shown (g : Globals) : Prop :=
  ∀ item, last (history g) = Some item →
    ∃ k, item_key item = Ok k ∧ k ∈ shown_updates g.

(** At most one task sleeps, exactly while [_pending] is set, and each
    invalidation is either still waiting for its wake-up or was answered
    by one broadcast. *)
Record debounce_inv (s : System) : Prop := {
  dinv_one : (length (sleeping s) ≤ 1)%nat;
  dinv_pending : _pending s = true ↔ sleeping s ≠ [];
  dinv_count :
    _version (state_cache s) = (length (broadcasts s) + length (sleeping s))%nat;
}.

(** A list of digit characters that reads as [n]: parsing it after the
    digits of [a] gives [a] shifted by its length, plus [n]. *)
Definition reads_as (ds : list ascii) (n : Z) : Prop :=
  Forall (fun c => is_digit c = true ∧ c ≠ ","%char ∧ c ≠ "."%char ∧ c ≠ "-"%char) ds ∧
  ∀ a rest, digits_value a (string_of_chars (ds ++ rest))
            = digits_value (a * 10 ^ Z.of_nat (length ds) + n) (string_of_chars rest).

(** A run with ticks, rates, an annotation and a debounce cycle. *)
Definition sample_day : list event :=
  [ PriceFetched (Some tick_U1);
    Notify 0;
    RateFetched (Some "16.250") "10:00:00";
    RateFetched (Some "16.250") "10:00:01";
    Atur ("harga" +:+ NEWLINE +:+ "naik");
    PriceFetched (Some tick_U1_again);
    PriceFetched (Some tick_U2);
    Wake 8;
    RateFetched (Some "16.300") "10:05:00" ].

(** Globals whose [shown_updates] holds 5000 ids. *)
Definition crowded_globals : Globals :=
  {| history := [];
     usd_idr_history := [];
     last_buy := None;
     shown_updates :=
       list_to_set ((fun n => Some (inl (Z.of_nat n))) <$> seq 1 5000);
     treasury_info := "" |}.

(** * Properties *)

(** ** Bounded deques *)

Lemma deque_append_length {A} (n : nat) (d : list A) (x : A) :
  (length d ≤ n)%nat → (length (deque_append n d x) ≤ n)%nat.
Proof.
  intros Hlen. unfold deque_append.
  destruct (Nat.ltb_spec n (length (d ++ [x]))) as [Hlt | Hge].
  - rewrite length_app in Hlt. simpl in Hlt.
    destruct d as [| a d]; simpl in *; [lia |].
    rewrite length_app. simpl. lia.
  - exact Hge.
Qed.

Lemma deque_append_cases {A} (n : nat) (d : list A) (x : A) :
  (0 < n)%nat → (length d ≤ n)%nat →
  deque_append n d x = (if (length d <? n)%nat then d else tail d) ++ [x].
Proof.
  intros Hpos Hlen. unfold deque_append. rewrite length_app. simpl.
  destruct (Nat.ltb_spec (length d) n) as [Hlt | Hge];
    destruct (Nat.ltb_spec n (length d + 1)) as [Hlt' | Hge']; try lia; auto.
  destruct d as [| a d]; simpl in *; [lia | reflexivity].
Qed.

Lemma deque_append_tail {A} (n : nat) (d : list A) (x : A) :
  (0 < n)%nat →
  deque_append n d x = (if (length d <? n)%nat then d else tail d) ++ [x].
Proof.
  intros Hpos. unfold deque_append. rewrite length_app. simpl.
  destruct (Nat.ltb_spec (length d) n) as [Hlt | Hge];
    destruct (Nat.ltb_spec n (length d + 1)) as [Hlt' | Hge']; try lia; auto.
  destruct d as [| a d]; simpl in *; [lia | reflexivity].
Qed.

Lemma deque_append_last {A} (n : nat) (d : list A) (x : A) :
  (0 < n)%nat → last (deque_append n d x) = Some x.
Proof.
  intros Hpos. unfold deque_append. rewrite length_app. simpl.
  destruct (Nat.ltb_spec n (length d + 1)) as [Hlt | Hge].
  - destruct d as [| a d]; simpl in *; [lia |]. apply last_snoc.
  - apply last_snoc.
Qed.

Lemma deque_append_Forall {A} (P : A → Prop) (n : nat) (d : list A) (x : A) :
  Forall P d → P x → Forall P (deque_append n d x).
Proof.
  intros Hd Hx. unfold deque_append.
  assert (Hall : Forall P (d ++ [x])) by (apply Forall_app; auto).
  destruct (n <? length (d ++ [x]))%nat; [| exact Hall].
  destruct (d ++ [x]); [constructor |]. simpl. by inversion Hall.
Qed.

(** ** What a turn of [api_loop] does to the globals *)

Section PollerFacts.
Context `{PyRuntime}.

Lemma record_price_Ok g buy sell upd k g' :
  record_price g buy sell upd k = Ok g' →
  ∃ b s,
    py_int_float buy = Ok b ∧ py_int_float sell = Ok s ∧
    g' = {| history :=
              deque_append MAX_HISTORY (history g)
                (price_item b s (status_of (last_buy g) b)
                   (diff_of (last_buy g) b) upd);
            usd_idr_history := usd_idr_history g;
            last_buy := Some b;
            shown_updates := remember_update (shown_updates g) k;
            treasury_info := treasury_info g |}.
Proof.
  unfold record_price.
  destruct (py_int_float buy) as [b |] eqn:Hb; simpl; [| discriminate].
  destruct (py_int_float sell) as [s |] eqn:Hs; simpl; [| discriminate].
  intros [= <-]. by exists b, s.
Qed.

Lemma apply_result_Ok g v g' sp :
  apply_result g v = Ok (g', sp) →
  (sp = false ∧ g' = g) ∨
  (sp = true ∧
   ∃ buy sell upd k,
     update_id v = Ok upd ∧ truthy upd = true ∧ py_key upd = Ok k ∧
     (k ∉ shown_updates g) ∧ record_price g buy sell upd k = Ok g').
Proof.
  unfold apply_result, update_id.
  destruct (py_get v "data" (PDict [])) as [data |] eqn:Hdata; simpl; [| discriminate].
  destruct (py_get data "buying_rate" PNone) as [buy |] eqn:Hbuy; simpl; [| discriminate].
  destruct (py_get data "selling_rate" PNone) as [sell |] eqn:Hsell; simpl; [| discriminate].
  destruct (py_get data "updated_at" PNone) as [upd |] eqn:Hupd; simpl; [| discriminate].
  unfold update_guard.
  destruct (truthy buy && truthy sell && truthy upd) eqn:Htruthy; simpl.
  - destruct (py_key upd) as [k |] eqn:Hk; simpl; [| discriminate].
    destruct (bool_decide (k ∉ shown_updates g)) eqn:Hnew; simpl.
    + destruct (record_price g buy sell upd k) as [g1 |] eqn:Hrec; simpl; [| discriminate].
      intros [= <- <-]. right. split; [done |].
      exists buy, sell, upd, k.
      apply andb_prop in Htruthy as [_ Hu].
      apply bool_decide_eq_true in Hnew. done.
    + intros [= <- <-]. by left.
  - intros [= <- <-]. by left.
Qed.

Lemma update_id_truthy v upd :
  update_id v = Ok upd → truthy upd = true → truthy v = true.
Proof.
  unfold update_id. destruct v as [| | | | | d]; simpl; try discriminate.
  destruct d as [| kv d]; [| done].
  simpl. intros [= <-]. discriminate.
Qed.

(** The two ways a turn ends: nothing recorded and the globals untouched,
    or one item recorded by [record_price]. *)
Lemma api_turn_cases st result st' t :
  api_turn st result = (st', t) →
  (spawned t = false ∧ api_globals st' = api_globals st) ∨
  (spawned t = true ∧ slept t = API_POLL_INTERVAL ∧ consecutive_errors st' = 0 ∧
   ∃ v buy sell upd k,
     result = Some v ∧ update_id v = Ok upd ∧ truthy upd = true ∧
     py_key upd = Ok k ∧ (k ∉ shown_updates (api_globals st)) ∧
     record_price (api_globals st) buy sell upd k = Ok (api_globals st')).
Proof.
  unfold api_turn, fetched.
  destruct result as [v |]; [destruct (truthy v) eqn:Hv |].
  - destruct (apply_result (api_globals st) v) as [[g1 sp] |] eqn:Happ.
    + intros [= <- <-]. simpl.
      apply apply_result_Ok in Happ as [[-> ->] | [-> (buy & sell & upd & k & H0)]].
      * by left.
      * right. repeat split; try done. exists v, buy, sell, upd, k.
        by destruct H0 as (? & ? & ? & ? & ?).
    + intros [= <- <-]. by left.
  - intros [= <- <-]. by left.
  - intros [= <- <-]. by left.
Qed.

Lemma remember_update_size shown k :
  (size (remember_update shown k) ≤ 5000)%nat.
Proof.
  unfold remember_update.
  destruct (Nat.ltb_spec 5000 (size ({[k]} ∪ shown))) as [Hlt | Hge].
  - rewrite size_singleton. lia.
  - exact Hge.
Qed.

Lemma remember_update_elem shown k : k ∈ remember_update shown k.
Proof.
  unfold remember_update.
  destruct (5000 <? size ({[k]} ∪ shown))%nat; set_solver.
Qed.

Lemma prev_buy_append hist b s st d upd :
  prev_buy (deque_append MAX_HISTORY hist (price_item b s st d upd)) = Some b.
Proof.
  unfold prev_buy. rewrite deque_append_last; [done | unfold MAX_HISTORY; lia].
Qed.

Lemma record_price_inv g buy sell upd k g' :
  globals_inv g → py_key upd = Ok k →
  record_price g buy sell upd k = Ok g' → globals_inv g'.
Proof.
  intros [Hh Hu Hs Hl Hp Hr] Hk Hrec.
  apply record_price_Ok in Hrec as (b & s & _ & _ & ->).
  split; simpl.
  - by apply deque_append_length.
  - done.
  - apply remember_update_size.
  - by rewrite prev_buy_append.
  - apply deque_append_Forall; [done |].
    by exists b, s, (status_of (last_buy g) b), (diff_of (last_buy g) b), upd, k.
  - done.
Qed.

Lemma api_turn_inv st result st' t :
  globals_inv (api_globals st) → api_turn st result = (st', t) →
  globals_inv (api_globals st').
Proof.
  intros Hinv Hturn.
  apply api_turn_cases in Hturn
    as [[_ ->] | (_ & _ & _ & v & buy & sell & upd & k & _ & _ & _ & Hk & _ & Hrec)].
  - done.
  - by eapply record_price_inv.
Qed.

Lemma usd_turn_cases g price now_wib g' t :
  usd_turn g price now_wib = (g', t) →
  (spawned t = false ∧ g' = g) ∨
  (spawned t = true ∧ ∃ p,
     price = Some p ∧
     g' = {| history := history g;
             usd_idr_history :=
               deque_append MAX_USD_HISTORY (usd_idr_history g) (rate_item p now_wib);
             last_buy := last_buy g;
             shown_updates := shown_updates g;
             treasury_info := treasury_info g |}).
Proof.
  unfold usd_turn.
  destruct price as [p |]; [| intros [= <- <-]; by left].
  destruct (negb (String.eqb p "")); [| intros [= <- <-]; by left].
  destruct (should_update (usd_idr_history g) p) as [[|] |];
    intros [= <- <-]; [right | left | left]; try done.
  split; [done |]. by exists p.
Qed.

Lemma usd_turn_inv g price now_wib g' t :
  globals_inv g → usd_turn g price now_wib = (g', t) → globals_inv g'.
Proof.
  intros Hinv Hturn.
  apply usd_turn_cases in Hturn as [[_ ->] | (_ & p & _ & ->)]; [done |].
  destruct Hinv as [Hh Hu Hs Hl Hp Hr]. split; simpl; try done.
  - by apply deque_append_length.
  - apply deque_append_Forall; [done |]. by exists p, now_wib.
Qed.

Lemma atur_handler_inv g text g' sp :
  globals_inv g → atur_handler g text = (g', sp) → globals_inv g'.
Proof.
  intros [Hh Hu Hs Hl Hp Hr]. unfold atur_handler.
  destruct (negb (String.eqb text "")); intros [= <- <-]; by split.
Qed.

Lemma initial_globals_inv : globals_inv initial_globals.
Proof.
  split; simpl; try done.
  - unfold MAX_HISTORY. lia.
  - unfold MAX_USD_HISTORY. lia.
  - change (size (∅ : gset pykey) ≤ 5000)%nat. rewrite size_empty. lia.
Qed.

(** Every transition of the event loop keeps the invariant. *)
Lemma step_inv s e s' :
  globals_inv (globals s) → step s e = Some s' → globals_inv (globals s').
Proof.
  intros Hinv. destruct e as [result | price now_wib | text | now | now | now]; simpl.
  - destruct (api_turn _ result) as [st t] eqn:Hturn. intros [= <-]. simpl.
    eapply api_turn_inv; [| exact Hturn]. done.
  - destruct (usd_turn _ price now_wib) as [g t] eqn:Hturn. intros [= <-]. simpl.
    by eapply usd_turn_inv.
  - destruct (atur_handler _ text) as [g sp] eqn:Hatur. intros [= <-]. simpl.
    by eapply atur_handler_inv.
  - destruct (created s); [discriminate |]. intros [= <-].
    unfold schedule_broadcast_start. by destruct (_pending s).
  - destruct (sleeping s) as [| due rest]; [discriminate |].
    destruct (due <=? now); [| discriminate]. intros [= <-].
    unfold schedule_broadcast_resume.
    by destruct (get_state_bytes _ _ _).
  - intros [= <-]. unfold read_state. by destruct (get_state_bytes _ _ _).
Qed.

Lemma run_inv es : ∀ s s',
  globals_inv (globals s) → run s es = Some s' → globals_inv (globals s').
Proof.
  induction es as [| e es IH]; simpl; intros s s' Hinv.
  - by intros [= <-].
  - destruct (step s e) as [s1 |] eqn:Hstep; [| discriminate].
    intros Hrun. eapply IH; [| exact Hrun]. by eapply step_inv.
Qed.

Lemma reachable_inv es s : run boot es = Some s → globals_inv (globals s).
Proof. apply run_inv, initial_globals_inv. Qed.

End PollerFacts.

(** ** Items by update id *)

Lemma items_with_id_app k h1 h2 :
  items_with_id k (h1 ++ h2) = items_with_id k h1 ++ items_with_id k h2.
Proof. apply filter_app. Qed.

Lemma items_with_id_singleton k item :
  (v ← getitem item "created_at"; py_key v) = Ok k →
  items_with_id k [item] = [item].
Proof. intros Hk. unfold items_with_id. by rewrite filter_cons_True. Qed.

Lemma items_with_id_tail k hist :
  items_with_id k hist = [] → items_with_id k (tail hist) = [].
Proof.
  destruct hist as [| a h']; [done |]. unfold items_with_id. simpl.
  rewrite filter_cons. by destruct (decide _).
Qed.

Lemma items_with_id_deque_append k n hist item :
  (0 < n)%nat → items_with_id k hist = [] →
  items_with_id k [item] = [item] →
  items_with_id k (deque_append n hist item) = [item].
Proof.
  intros Hpos Hnone Hitem. unfold deque_append.
  destruct (n <? length (hist ++ [item]))%nat eqn:Hfull.
  - destruct hist as [| a h'].
    + simpl in Hfull. apply Nat.ltb_lt in Hfull. lia.
    + change (tail ((a :: h') ++ [item])) with (tail (a :: h') ++ [item]).
      rewrite items_with_id_app, Hitem, items_with_id_tail; done.
  - by rewrite items_with_id_app, Hitem, Hnone.
Qed.

(** ** Recorded ticks *)

Section Ticks.
Context `{PyRuntime}.

Lemma step_price_cases s result s' :
  step s (PriceFetched result) = Some s' →
  globals s' = globals s ∨
  ∃ buy sell upd k g',
    py_key upd = Ok k ∧ (k ∉ shown_updates (globals s)) ∧
    record_price (globals s) buy sell upd k = Ok g' ∧ globals s' = g'.
Proof.
  simpl. destruct (api_turn _ result) as [st t] eqn:Hturn. intros [= <-]. simpl.
  apply api_turn_cases in Hturn
    as [[_ ->] | (_ & _ & _ & v & buy & sell & upd & k & _ & _ & _ & Hk & Hnew & Hrec)].
  - by left.
  - right. by exists buy, sell, upd, k, (api_globals st).
Qed.

Lemma step_globals_cases s e s' :
  step s e = Some s' →
  globals s' = globals s ∨
  (∃ buy sell upd k,
     py_key upd = Ok k ∧ (k ∉ shown_updates (globals s)) ∧
     record_price (globals s) buy sell upd k = Ok (globals s')) ∨
  (∃ p now_wib,
     globals s' =
       {| history := history (globals s);
          usd_idr_history :=
            deque_append MAX_USD_HISTORY (usd_idr_history (globals s))
              (rate_item p now_wib);
          last_buy := last_buy (globals s);
          shown_updates := shown_updates (globals s);
          treasury_info := treasury_info (globals s) |}) ∨
  (∃ info,
     globals s' =
       {| history := history (globals s);
          usd_idr_history := usd_idr_history (globals s);
          last_buy := last_buy (globals s);
          shown_updates := shown_updates (globals s);
          treasury_info := info |}).
Proof.
  destruct e as [result | price now_wib | text | now | now | now].
  - intros Hstep.
    apply step_price_cases in Hstep
      as [-> | (buy & sell & upd & k & g' & Hk & Hnew & Hrec & ->)]; [by left |].
    right; left. by exists buy, sell, upd, k.
  - simpl. destruct (usd_turn _ price now_wib) as [g t] eqn:Hturn.
    intros [= <-]. simpl.
    apply usd_turn_cases in Hturn as [[_ ->] | (_ & p & _ & ->)]; [by left |].
    right; right; left. by exists p, now_wib.
  - simpl. unfold atur_handler.
    destruct (negb (String.eqb text "")); intros [= <-]; simpl; [| by left].
    right; right; right. by eexists.
  - simpl. destruct (created s); [discriminate |]. intros [= <-].
    left. unfold schedule_broadcast_start. by destruct (_pending s).
  - simpl. destruct (sleeping s) as [| due rest]; [discriminate |].
    destruct (due <=? now); [| discriminate]. intros [= <-].
    left. unfold schedule_broadcast_resume. by destruct (get_state_bytes _ _ _).
  - simpl. intros [= <-]. left. unfold read_state.
    by destruct (get_state_bytes _ _ _).
Qed.

Lemma marks_distinct : ROCKET ≠ DOWN ∧ ROCKET ≠ FLAT ∧ DOWN ≠ FLAT.
Proof. repeat split; discriminate. Qed.

(** C3. For every recorded price tick, the stored status is the up mark
    exactly when the new buy rate is greater than the buy rate of the
    previous tick, the down mark exactly when it is less, and the flat
    mark when it is equal or when there is no previous tick; the stored
    diff is the new buy rate minus the previous one, and 0 when there is no
    previous tick. *)
Theorem recorded_tick_status_and_diff
    (es : list event) (s s' : System) (result : option pyval) :
  run boot es = Some s →
  step s (PriceFetched result) = Some s' →
  history (globals s') ≠ history (globals s) →
  ∃ item buy status diff,
    last (history (globals s')) = Some item ∧
    dict_lookup "buying_rate" item = Some (PInt buy) ∧
    dict_lookup "status" item = Some (PStr status) ∧
    dict_lookup "diff" item = Some (PInt diff) ∧
    (status = ROCKET ↔ ∃ p, prev_buy (history (globals s)) = Some p ∧ p < buy) ∧
    (status = DOWN ↔ ∃ p, prev_buy (history (globals s)) = Some p ∧ buy < p) ∧
    (status = FLAT ↔
       prev_buy (history (globals s)) = None ∨
       prev_buy (history (globals s)) = Some buy) ∧
    diff = match prev_buy (history (globals s)) with
           | Some p => buy - p
           | None => 0
           end.
Proof.
  intros Hrun Hstep Hchanged.
  apply reachable_inv in Hrun. destruct Hrun as [_ _ _ Hlast _ _].
  apply step_price_cases in Hstep
    as [Hsame | (rb & rs & upd & k & g' & Hk & Hnew & Hrec & Hg')].
  { by rewrite Hsame in Hchanged. }
  apply record_price_Ok in Hrec as (b & sl & _ & _ & ->).
  rewrite Hg'. simpl. rewrite <- Hlast.
  exists (price_item b sl (status_of (last_buy (globals s)) b)
            (diff_of (last_buy (globals s)) b) upd),
    b, (status_of (last_buy (globals s)) b), (diff_of (last_buy (globals s)) b).
  split; [apply deque_append_last; unfold MAX_HISTORY; lia |].
  do 3 (split; [reflexivity |]).
  destruct marks_distinct as (Hrd & Hrf & Hdf).
  unfold status_of, diff_of.
  destruct (last_buy (globals s)) as [p |].
  - destruct (Z.ltb_spec p b) as [Hup | Hnup];
      [| destruct (Z.ltb_spec b p) as [Hdown | Hndown]].
    + repeat split; try done.
      * intros _. exists p. split; [done | lia].
      * intros (q & [= <-] & Hq). lia.
      * intros [[=] | [= ->]]. lia.
    + repeat split; try done.
      * intros (q & [= <-] & Hq). lia.
      * intros _. exists p. split; [done | lia].
      * intros [[=] | [= ->]]. lia.
    + assert (b = p) as -> by lia.
      repeat split; try done.
      * intros (q & [= <-] & Hq). lia.
      * intros (q & [= <-] & Hq). lia.
      * intros _. by right.
  - repeat split; try done.
    + intros (q & [=] & _).
    + intros (q & [=] & _).
    + intros _. by left.
Qed.

(** C4. Two fetch results that carry the same [updated_at], applied one
    after the other: when the first is recorded, the second leaves the
    globals as they are, and the history holds exactly one item for that
    id (none was stored for it before). *)
Theorem same_update_id_recorded_once
    (st st1 st2 : ApiLoop) (t1 t2 : Turn) (r1 r2 upd : pyval) (k : pykey) :
  update_id r1 = Ok upd → update_id r2 = Ok upd → py_key upd = Ok k →
  items_with_id k (history (api_globals st)) = [] →
  api_turn st (Some r1) = (st1, t1) → spawned t1 = true →
  api_turn st1 (Some r2) = (st2, t2) →
  api_globals st2 = api_globals st1 ∧ spawned t2 = false ∧
  length (items_with_id k (history (api_globals st2))) = 1%nat.
Proof.
  intros Hr1 Hr2 Hk Hnone Hturn1 Hsp Hturn2.
  apply api_turn_cases in Hturn1
    as [[Hsp' _] | (_ & _ & _ & v & b1 & s1 & upd1 & k1 & [= <-] & Hid1 & _ & Hk1 & Hnew1 & Hrec1)];
    [congruence |].
  rewrite Hr1 in Hid1. injection Hid1 as <-.
  rewrite Hk in Hk1. injection Hk1 as <-.
  apply record_price_Ok in Hrec1 as (b & sl & _ & _ & Hg1).
  assert (Hin : k ∈ shown_updates (api_globals st1)).
  { rewrite Hg1. simpl. apply remember_update_elem. }
  assert (Hsame : api_globals st2 = api_globals st1 ∧ spawned t2 = false).
  { apply api_turn_cases in Hturn2
      as [[? ?] | (_ & _ & _ & v & b2 & s2 & upd2 & k2 & [= <-] & Hid2 & _ & Hk2 & Hnew2 & _)];
      [done |].
    rewrite Hr2 in Hid2. injection Hid2 as <-.
    rewrite Hk in Hk2. injection Hk2 as <-. done. }
  destruct Hsame as [Hg2 Hsp2]. split; [done |]. split; [done |].
  rewrite Hg2, Hg1. simpl.
  rewrite items_with_id_deque_append; [done | unfold MAX_HISTORY; lia | done |].
  apply items_with_id_singleton. simpl. exact Hk.
Qed.

(** A document of the API's shape whose fields pass the guard is recorded. *)
Lemma step_price_doc s buy sell upd k g' :
  truthy buy = true → truthy sell = true → truthy upd = true →
  py_key upd = Ok k → k ∉ shown_updates (globals s) →
  record_price (globals s) buy sell upd k = Ok g' →
  step s (PriceFetched (Some (price_doc buy sell upd)))
  = Some (with_globals s g' 0 true).
Proof.
  intros Hb Hs Hu Hk Hnew Hrec.
  unfold step, api_turn, fetched, price_doc, apply_result, update_guard.
  cbn [truthy py_get dict_get dict_lookup String.eqb Ascii.eqb Bool.eqb
       mbind res_bind api_globals].
  rewrite Hb, Hs, Hu. cbn [andb]. rewrite Hk. cbn [mbind res_bind].
  rewrite bool_decide_eq_true_2 by exact Hnew.
  rewrite Hrec. reflexivity.
Qed.

Lemma remember_update_fresh (shown : gset pykey) (k : pykey) :
  k ∉ shown →
  ((size shown < 5000)%nat → remember_update shown k = {[ k ]} ∪ shown) ∧
  (size shown = 5000%nat → remember_update shown k = {[ k ]}).
Proof.
  intros Hnew.
  assert (Hsize : size ({[ k ]} ∪ shown) = S (size shown)).
  { rewrite size_union by set_solver. by rewrite size_singleton. }
  unfold remember_update. rewrite Hsize. split.
  - intros Hlt. apply Nat.ltb_ge in Hlt. by rewrite Hlt.
  - intros ->. by rewrite (proj2 (Nat.ltb_lt _ _) (Nat.lt_succ_diag_r _)).
Qed.

(** C6. Along every run, the price history never holds more than 1441
    items and the rate history never more than 11; a transition either
    leaves a history as it is or appends one item at the tail, dropping
    exactly the oldest item when the history was full. The append is not
    optional: a fetched document whose fields pass the guard of [api_loop]
    puts its item at the tail of the price history, and a fetched rate
    that passes the guard of [usd_idr_loop] puts its item at the tail of
    the rate history, in both cases after the oldest item was dropped from
    a full history and from no other. *)
Theorem histories_bounded_oldest_evicted
    (es : list event) (s s' : System) (e : event) :
  run boot es = Some s → step s e = Some s' →
  (length (history (globals s')) ≤ 1441)%nat ∧
  (length (usd_idr_history (globals s')) ≤ 11)%nat ∧
  (history (globals s') = history (globals s) ∨
   ∃ item,
     history (globals s') =
       (if (length (history (globals s)) <? 1441)%nat
        then history (globals s) else tail (history (globals s))) ++ [item]) ∧
  (usd_idr_history (globals s') = usd_idr_history (globals s) ∨
   ∃ item,
     usd_idr_history (globals s') =
       (if (length (usd_idr_history (globals s)) <? 11)%nat
        then usd_idr_history (globals s)
        else tail (usd_idr_history (globals s))) ++ [item]) ∧
  (∀ buy sell upd k b sl,
     e = PriceFetched (Some (price_doc buy sell upd)) →
     truthy buy = true → truthy sell = true → truthy upd = true →
     py_key upd = Ok k → k ∉ shown_updates (globals s) →
     py_int_float buy = Ok b → py_int_float sell = Ok sl →
     history (globals s') =
       (if (length (history (globals s)) <? 1441)%nat
        then history (globals s) else tail (history (globals s)))
       ++ [price_item b sl (status_of (last_buy (globals s)) b)
             (diff_of (last_buy (globals s)) b) upd]) ∧
  (∀ p now_wib,
     e = RateFetched (Some p) now_wib →
     p ≠ "" → should_update (usd_idr_history (globals s)) p = Ok true →
     usd_idr_history (globals s') =
       (if (length (usd_idr_history (globals s)) <? 11)%nat
        then usd_idr_history (globals s)
        else tail (usd_idr_history (globals s)))
       ++ [rate_item p now_wib]).
Proof.
  intros Hrun Hstep.
  apply reachable_inv in Hrun.
  pose proof (step_inv _ _ _ Hrun Hstep) as [Hh' Hu' _ _ _ _].
  destruct Hrun as [Hh Hu _ _ _ _].
  split; [exact Hh' |]. split; [exact Hu' |].
  split; [| split; [| split]].
  - apply step_globals_cases in Hstep
      as [-> | [(buy & sell & upd & k & _ & _ & Hrec) | [(p & w & ->) | (info & ->)]]];
      try (by left).
    apply record_price_Ok in Hrec as (b & sl & _ & _ & ->). simpl.
    right. eexists. apply deque_append_tail. unfold MAX_HISTORY. lia.
  - apply step_globals_cases in Hstep
      as [-> | [(buy & sell & upd & k & _ & _ & Hrec) | [(p & w & ->) | (info & ->)]]];
      try (by left).
    + apply record_price_Ok in Hrec as (b & sl & _ & _ & ->). by left.
    + simpl. right. eexists. apply deque_append_tail. unfold MAX_USD_HISTORY. lia.
  - intros buy sell upd k b sl -> Hb Hs Hu0 Hk Hnew Hbuy Hsell.
    assert (Hrec : ∃ g', record_price (globals s) buy sell upd k = Ok g').
    { unfold record_price. rewrite Hbuy, Hsell. cbn [mbind res_bind]. by eexists. }
    destruct Hrec as [g' Hrec].
    rewrite (step_price_doc _ _ _ _ _ _ Hb Hs Hu0 Hk Hnew Hrec) in Hstep.
    injection Hstep as <-. simpl.
    apply record_price_Ok in Hrec as (b' & sl' & Hb' & Hs' & ->). simpl.
    rewrite Hbuy in Hb'. injection Hb' as <-.
    rewrite Hsell in Hs'. injection Hs' as <-.
    apply deque_append_tail. unfold MAX_HISTORY. lia.
  - intros p now_wib -> Hp Hshould.
    simpl in Hstep. unfold usd_turn in Hstep.
    destruct (String.eqb_spec p ""); [done |]. simpl in Hstep.
    rewrite Hshould in Hstep. injection Hstep as <-. simpl.
    apply deque_append_tail. unfold MAX_USD_HISTORY. lia.
Qed.

(** C7. Along every run, the set of seen update ids never holds more than
    5000 keys; a transition either leaves it as it is or inserts one new
    key, and when the insertion takes the set beyond 5000 keys the set is
    replaced by the singleton of the key just inserted. The insertion is
    not optional: a fetched document whose fields pass the guard of
    [api_loop] has its id in the set afterwards, beside the ids seen
    before while these are fewer than 5000 and alone when they are 5000. *)
Theorem shown_updates_capped
    (es : list event) (s s' : System) (e : event) :
  run boot es = Some s → step s e = Some s' →
  (size (shown_updates (globals s')) ≤ 5000)%nat ∧
  (shown_updates (globals s') = shown_updates (globals s) ∨
   ∃ k, (k ∉ shown_updates (globals s)) ∧
     shown_updates (globals s') =
       if (5000 <? size ({[ k ]} ∪ shown_updates (globals s)))%nat
       then {[ k ]} else {[ k ]} ∪ shown_updates (globals s)) ∧
  (∀ buy sell upd k b sl,
     e = PriceFetched (Some (price_doc buy sell upd)) →
     truthy buy = true → truthy sell = true → truthy upd = true →
     py_key upd = Ok k → k ∉ shown_updates (globals s) →
     py_int_float buy = Ok b → py_int_float sell = Ok sl →
     k ∈ shown_updates (globals s') ∧
     shown_updates (globals s') =
       (if (5000 <? size ({[ k ]} ∪ shown_updates (globals s)))%nat
        then {[ k ]} else {[ k ]} ∪ shown_updates (globals s)) ∧
     ((size (shown_updates (globals s)) < 5000)%nat →
      shown_updates (globals s') = {[ k ]} ∪ shown_updates (globals s)) ∧
     (size (shown_updates (globals s)) = 5000%nat →
      shown_updates (globals s') = {[ k ]})).
Proof.
  intros Hrun Hstep.
  apply reachable_inv in Hrun.
  pose proof (step_inv _ _ _ Hrun Hstep) as [_ _ Hs' _ _ _].
  split; [exact Hs' |]. split.
  - apply step_globals_cases in Hstep
      as [-> | [(buy & sell & upd & k & _ & Hnew & Hrec) | [(p & w & ->) | (info & ->)]]];
      try by left.
    apply record_price_Ok in Hrec as (b & sl & _ & _ & ->). simpl.
    right. by exists k.
  - intros buy sell upd k b sl -> Hb Hs Hu0 Hk Hnew Hbuy Hsell.
    assert (Hrec : ∃ g', record_price (globals s) buy sell upd k = Ok g').
    { unfold record_price. rewrite Hbuy, Hsell. cbn [mbind res_bind]. by eexists. }
    destruct Hrec as [g' Hrec].
    rewrite (step_price_doc _ _ _ _ _ _ Hb Hs Hu0 Hk Hnew Hrec) in Hstep.
    injection Hstep as <-. simpl.
    apply record_price_Ok in Hrec as (b' & sl' & _ & _ & ->). simpl.
    split; [apply remember_update_elem |].
    split; [reflexivity |].
    apply remember_update_fresh. exact Hnew.
Qed.

End Ticks.

(** ** The connection registry *)

Lemma concat_chunks_take {A} (c : nat) (l : list A) (m : nat) :
  concat (map (fun i => take c (drop i l)) (map (fun k => (k * c)%nat) (seq 0 m)))
  = take (m * c) l.
Proof.
  induction m as [| m IH].
  - simpl. by rewrite take_0.
  - rewrite seq_S, !map_app, concat_app, IH. simpl.
    rewrite app_nil_r, take_take_drop. f_equal. lia.
Qed.

Lemma chunks_concat (connections : list ws) :
  concat (chunks connections) = connections.
Proof.
  unfold chunks, range_step. rewrite concat_chunks_take.
  apply take_ge. unfold BROADCAST_CHUNK_SIZE.
  pose proof (Nat.div_mod_eq (length connections + 50 - 1) 50) as Hdm.
  pose proof (Nat.mod_upper_bound (length connections + 50 - 1) 50) as Hub.
  lia.
Qed.

Lemma chunks_bounded (connections : list ws) :
  Forall (fun chunk => (length chunk ≤ BROADCAST_CHUNK_SIZE)%nat) (chunks connections).
Proof.
  unfold chunks. apply Forall_map, Forall_forall. intros i _. simpl.
  rewrite length_take. lia.
Qed.

Lemma concat_map_filter {A} (P : A → Prop) `{∀ x, Decision (P x)} (ls : list (list A)) :
  concat (map (filter P) ls) = filter P (concat ls).
Proof.
  induction ls as [| l ls IH]; [done |]. simpl. by rewrite filter_app, IH.
Qed.

Lemma broadcast_failed_filter (net : ws → sending) (connections : list ws) :
  broadcast_failed net connections
  = filter (fun w => (_send_safe (net w)).1 = false) connections.
Proof.
  unfold broadcast_failed, chunk_failed.
  by rewrite concat_map_filter, chunks_concat.
Qed.

Lemma disconnect_all_difference (failed : list ws) : ∀ conns : gset ws,
  disconnect_all conns failed = conns ∖ list_to_set failed.
Proof.
  unfold disconnect_all.
  induction failed as [| w failed IH]; intros conns; simpl.
  - set_solver.
  - rewrite IH. unfold disconnect. set_solver.
Qed.

Lemma send_safe_true (aw : sending) :
  (_send_safe aw).1 = true ↔ ∃ d, aw = Completes d ∧ d < SEND_TIMEOUT.
Proof.
  unfold _send_safe, wait_for. destruct aw as [d | d |].
  - destruct (Z.ltb_spec d SEND_TIMEOUT); simpl.
    + split; [intros _; by exists d | done].
    + split; [done | intros (d' & [= <-] & ?); lia].
  - destruct (d <? SEND_TIMEOUT); simpl; split; try done; by intros (? & ? & ?).
  - simpl. split; [done | by intros (? & ? & ?)].
Qed.

Lemma send_safe_elapsed (aw : sending) : (_send_safe aw).2 ≤ SEND_TIMEOUT.
Proof.
  unfold _send_safe, wait_for. destruct aw as [d | d |].
  - destruct (Z.ltb_spec d SEND_TIMEOUT); simpl; lia.
  - destruct (Z.ltb_spec d SEND_TIMEOUT); simpl; lia.
  - simpl. lia.
Qed.

(** C8. A broadcast cuts the sockets of the registry into chunks of at
    most 50 that together are the whole registry; no send takes longer
    than the 5 s timeout; a socket is marked exactly when its send raised
    or timed out; and once the closing loop has run, no marked socket is
    in the registry, whatever other tasks did to the registry meanwhile,
    while every socket that was not marked is still there. *)
Theorem broadcast_evicts_failed
    (net : ws → sending) (conns later : gset ws) :
  concat (chunks (elements conns)) = elements conns ∧
  Forall (fun chunk => (length chunk ≤ 50)%nat) (chunks (elements conns)) ∧
  (∀ w, (_send_safe (net w)).2 ≤ 5000) ∧
  (∀ w, w ∈ broadcast_failed net (elements conns) ↔
        w ∈ conns ∧ ¬ ∃ d, net w = Completes d ∧ d < 5000) ∧
  (∀ w, w ∈ broadcast_failed net (elements conns) →
        w ∉ broadcast_among net conns later) ∧
  (∀ w, w ∈ later → w ∉ broadcast_failed net (elements conns) →
        w ∈ broadcast_among net conns later).
Proof.
  assert (Hmarked : ∀ w, w ∈ broadcast_failed net (elements conns) ↔
            w ∈ conns ∧ ¬ ∃ d, net w = Completes d ∧ d < 5000).
  { intros w. rewrite broadcast_failed_filter, list_elem_of_filter, elem_of_elements.
    pose proof (send_safe_true (net w)) as Htrue. unfold SEND_TIMEOUT in Htrue.
    split.
    - intros [Hfalse Hin]. split; [done |].
      intros Hd. apply Htrue in Hd. congruence.
    - intros [Hin Hnot]. split; [| done].
      destruct ((_send_safe (net w)).1) eqn:Hsent; [| done].
      exfalso. by apply Hnot, Htrue. }
  split; [apply chunks_concat |].
  split; [apply chunks_bounded |].
  split; [intros w; apply (send_safe_elapsed (net w)) |].
  split; [exact Hmarked |].
  split.
  - intros w Hw. unfold broadcast_among.
    assert (Hne : conns ≠ ∅) by (apply Hmarked in Hw as [? _]; set_solver).
    rewrite bool_decide_eq_false_2 by done.
    rewrite disconnect_all_difference. set_solver.
  - intros w Hw Hnot. unfold broadcast_among.
    destruct (bool_decide (conns = ∅)); [done |].
    rewrite disconnect_all_difference. set_solver.
Qed.

(** C9. With 500 sockets registered, [connect] returns [False] and the
    registry, hence its count, is what it was; with fewer than 500, it
    returns [True] and the registry is the old one with the socket
    added. *)
Theorem connect_admission (conns : gset ws) (w : ws) :
  (size conns = 500%nat →
     connect conns w = (conns, false) ∧ count (connect conns w).1 = 500%nat) ∧
  ((size conns < 500)%nat →
     connect conns w = ({[ w ]} ∪ conns, true) ∧ w ∈ (connect conns w).1 ∧
     (count (connect conns w).1 ≤ 500)%nat).
Proof.
  unfold connect, count, MAX_CONNECTIONS. split; intros Hsize.
  - destruct (Nat.leb_spec 500 (size conns)); [| lia]. by simpl.
  - destruct (Nat.leb_spec 500 (size conns)); [lia |]. simpl.
    split; [done |]. split; [set_solver |].
    pose proof (size_union_alt {[w]} conns) as Hu.
    rewrite size_singleton in Hu.
    assert (size (conns ∖ {[w]}) ≤ size conns)%nat
      by (apply subseteq_size; set_solver).
    lia.
Qed.

(** ** The snapshot cache *)

Section CacheFacts.
Context `{PyRuntime}.

Lemma fresh_cache_Some c now b :
  fresh_cache c now = Some b ↔
  _cache c = Some b ∧ b ≠ "" ∧ now - _cache_time c < STATE_CACHE_TTL.
Proof.
  unfold fresh_cache. destruct (_cache c) as [b0 |]; [| by split; [| intros [? _]]].
  destruct (String.eqb_spec b0 ""); simpl.
  - split; [done | intros ([= ->] & ? & _); done].
  - destruct (Z.ltb_spec (now - _cache_time c) STATE_CACHE_TTL).
    + split; [intros [= <-]; done | intros ([= ->] & _); done].
    + split; [done | intros (_ & _ & ?); lia].
Qed.

Lemma build_full_state_bytes_dumps g b :
  build_full_state_bytes g = Ok b → ∃ v, b = json_dumps_bytes v.
Proof.
  unfold build_full_state_bytes.
  destruct (build_history_data g); simpl; [| discriminate].
  destruct (build_usd_idr_data g); simpl; [| discriminate].
  intros [= <-]. by eexists.
Qed.

(** A call that finds fresh bytes returns them and changes nothing. *)
Lemma get_state_bytes_hit c now g b :
  _cache c = Some b → b ≠ "" → now - _cache_time c < STATE_CACHE_TTL →
  get_state_bytes c now g = (c, {| returned := Ok b; rebuilt := false |}).
Proof.
  intros Hc Hb Ht. unfold get_state_bytes.
  by rewrite (proj2 (fresh_cache_Some c now b)).
Qed.

Lemma get_state_bytes_many_hits c g b ts :
  _cache c = Some b → b ≠ "" →
  Forall (fun t => t - _cache_time c < STATE_CACHE_TTL) ts →
  get_state_bytes_many c g ts
  = (c, map (fun _ => {| returned := Ok b; rebuilt := false |}) ts).
Proof.
  intros Hc Hb. induction 1 as [| t ts Ht _ IH]; simpl; [done |].
  by rewrite (get_state_bytes_hit c t g b), IH.
Qed.

Lemma rebuild_count_hits (b : string) (ts : list Z) :
  rebuild_count (map (fun _ => {| returned := Ok b; rebuilt := false |}) ts) = 0%nat.
Proof.
  unfold rebuild_count. induction ts as [| t ts IH]; [done |]. simpl.
  rewrite filter_cons_False; [exact IH | simpl; discriminate].
Qed.

(** C5. With an encoder that never yields empty bytes: a second call of
    [get_state_bytes] that comes while the bytes the first call returned
    are younger than 50 ms, with no [invalidate] in between, returns the
    same bytes, does not run the builder and leaves the cache untouched,
    whatever happened to the globals; and after an [invalidate], callers
    arriving within 50 ms of the first one cause exactly one run of the
    builder and all get its bytes. *)
Theorem cache_hit_and_single_rebuild :
  (∀ v, json_dumps_bytes v ≠ "") →
  (∀ c t1 g1 t2 g2 b,
     returned (get_state_bytes c t1 g1).2 = Ok b →
     t2 - _cache_time (get_state_bytes c t1 g1).1 < 50 →
     get_state_bytes (get_state_bytes c t1 g1).1 t2 g2
     = ((get_state_bytes c t1 g1).1, {| returned := Ok b; rebuilt := false |})) ∧
  (∀ c g b t ts,
     build_full_state_bytes g = Ok b →
     Forall (fun t' => t' - t < 50) ts →
     rebuild_count (get_state_bytes_many (invalidate c) g (t :: ts)).2 = 1%nat ∧
     Forall (fun f => returned f = Ok b)
       (get_state_bytes_many (invalidate c) g (t :: ts)).2).
Proof.
  intros Hne. split.
  - intros c t1 g1 t2 g2 b.
    destruct (get_state_bytes c t1 g1) as [c1 f1] eqn:Hcall. simpl.
    intros Hret Ht. unfold get_state_bytes in Hcall.
    destruct (fresh_cache c t1) as [b0 |] eqn:Hfresh.
    + injection Hcall as <- <-. simpl in Hret. injection Hret as ->.
      apply fresh_cache_Some in Hfresh as (Hc & Hb & _).
      by apply get_state_bytes_hit.
    + destruct (build_full_state_bytes g1) as [b1 |] eqn:Hbuild;
        injection Hcall as <- <-; simpl in Hret; [| discriminate].
      injection Hret as ->.
      apply get_state_bytes_hit; simpl; [done | | done].
      apply build_full_state_bytes_dumps in Hbuild as [v ->]. apply Hne.
  - intros c g b t ts Hbuild Hts.
    assert (Hb : b ≠ "").
    { apply build_full_state_bytes_dumps in Hbuild as [v ->]. apply Hne. }
    assert (Hfirst : get_state_bytes (invalidate c) t g
              = ({| _cache := Some b; _cache_time := t;
                    _version := _version (invalidate c) |},
                 {| returned := Ok b; rebuilt := true |})).
    { unfold get_state_bytes, fresh_cache. cbn [invalidate _cache].
      by rewrite Hbuild. }
    cbn [get_state_bytes_many]. rewrite Hfirst.
    rewrite (get_state_bytes_many_hits _ g b ts); [| done | done | by simpl].
    cbn [snd]. split.
    + unfold rebuild_count. rewrite filter_cons_True by done.
      cbn [length]. f_equal. apply rebuild_count_hits.
    + constructor; [done |]. apply Forall_map, Forall_forall. done.
Qed.

End CacheFacts.

(** ** Snapshot building on stored items *)

Section SnapshotFacts.
Context `{PyRuntime}.

Lemma calc_profit_total h modal pokok : ∃ s, calc_profit h modal pokok = Ok s.
Proof.
  unfold calc_profit, try_except.
  destruct (calc_profit_try h modal pokok) as [s | e]; eauto.
Qed.

Lemma py_str_hashable v k : py_key v = Ok k → ∃ s, py_str v = Ok s.
Proof. destruct v; simpl; try discriminate; eauto. Qed.

Lemma get_day_time_Ok upd k :
  py_key upd = Ok k → ∃ d s, get_day_time upd = Ok d ∧ py_str d = Ok s.
Proof.
  intros Hk. unfold get_day_time, lru_cache_key. rewrite Hk. cbn [mbind res_bind].
  destruct (py_str_hashable upd k Hk) as [su Hsu].
  destruct upd as [| | | sdate | |]; simpl; eauto.
  destruct (strptime sdate) as [dt |]; simpl; eauto.
  destruct (nth_error HARI_INDO (weekday dt)); simpl; eauto.
Qed.

Lemma format_diff_display_Ok d st :
  ∃ r, format_diff_display (PInt d) (PStr st) = Ok r.
Proof.
  unfold format_diff_display. simpl.
  destruct (String.eqb st ROCKET); [eauto |].
  destruct (String.eqb st DOWN); eauto.
Qed.

Lemma build_single_history_item_Ok item :
  stored_price_item item → ∃ v, build_single_history_item item = Ok v.
Proof.
  intros (b & s & st & d & upd & k & -> & Hk).
  destruct (format_diff_display_Ok d st) as [dd Hdd].
  destruct (get_day_time_Ok upd k Hk) as (day & sday & Hday & Hsday).
  destruct (calc_profit_total (price_item b s st d upd)
              (profit_config 0).1 (profit_config 0).2) as [j20 H20].
  destruct (calc_profit_total (price_item b s st d upd)
              (profit_config 1).1 (profit_config 1).2) as [j30 H30].
  destruct (calc_profit_total (price_item b s st d upd)
              (profit_config 2).1 (profit_config 2).2) as [j40 H40].
  destruct (calc_profit_total (price_item b s st d upd)
              (profit_config 3).1 (profit_config 3).2) as [j50 H50].
  unfold build_single_history_item.
  change (getitem (price_item b s st d upd) "buying_rate") with (Ok (PInt b)).
  change (getitem (price_item b s st d upd) "selling_rate") with (Ok (PInt s)).
  change (getitem (price_item b s st d upd) "status") with (Ok (PStr st)).
  change (getitem (price_item b s st d upd) "created_at") with (Ok upd).
  change (dict_get (price_item b s st d upd) "diff" (PInt 0)) with (PInt d).
  cbn [mbind res_bind py_format_rupiah lru_cache_key py_key].
  rewrite Hdd. cbn [mbind res_bind].
  unfold format_waktu_only. rewrite Hday. cbn [mbind res_bind].
  rewrite Hsday. cbn [mbind res_bind py_str].
  rewrite H20. cbn [mbind res_bind].
  rewrite H30. cbn [mbind res_bind].
  rewrite H40. cbn [mbind res_bind].
  rewrite H50. cbn [mbind res_bind].
  eauto.
Qed.

Lemma comprehension_Ok {A B} (P : A → Prop) (f : A → res B) (l : list A) :
  (∀ x, P x → ∃ y, f x = Ok y) → Forall P l → ∃ ys, comprehension f l = Ok ys.
Proof.
  intros Hf. induction 1 as [| x l Hx _ [ys IH]]; simpl; [eauto |].
  destruct (Hf x Hx) as [y ->]. rewrite IH. simpl. eauto.
Qed.

Lemma build_usd_idr_item_Ok item :
  stored_rate_item item → ∃ v, build_usd_idr_item item = Ok v.
Proof. intros (p & t & ->). by eexists. Qed.

Lemma build_full_state_bytes_Ok g :
  globals_inv g → ∃ b, build_full_state_bytes g = Ok b.
Proof.
  intros [_ _ _ _ Hp Hr]. unfold build_full_state_bytes, build_history_data,
    build_usd_idr_data.
  destruct (comprehension_Ok _ _ _ build_single_history_item_Ok Hp) as [hs ->].
  destruct (comprehension_Ok _ _ _ build_usd_idr_item_Ok Hr) as [us ->].
  simpl. eauto.
Qed.

(** C10. [calc_profit] never raises: it always returns a string, which is
    ["-"] when the item's [buying_rate] is zero and when [buying_rate] or
    [selling_rate] is missing; and along every run the snapshot builder
    succeeds on the stored state. *)
Theorem calc_profit_never_raises :
  (∀ h modal pokok, ∃ s, calc_profit h modal pokok = Ok s) ∧
  (∀ h modal pokok,
     dict_lookup "buying_rate" h = Some (PInt 0) →
     dict_lookup "selling_rate" h ≠ None →
     calc_profit_try h modal pokok = Raise ZeroDivisionError ∧
     calc_profit h modal pokok = Ok "-") ∧
  (∀ h modal pokok,
     dict_lookup "buying_rate" h = None ∨ dict_lookup "selling_rate" h = None →
     calc_profit_try h modal pokok = Raise KeyError ∧
     calc_profit h modal pokok = Ok "-") ∧
  (∀ es s, run boot es = Some s →
     Forall (fun item => ∃ v, build_single_history_item item = Ok v)
       (history (globals s)) ∧
     ∃ b, build_full_state_bytes (globals s) = Ok b).
Proof.
  split; [apply calc_profit_total |]. split; [| split].
  - intros h modal pokok Hbuy Hsell. unfold calc_profit, calc_profit_try, getitem.
    rewrite Hbuy. destruct (dict_lookup "selling_rate" h); [| done]. by simpl.
  - intros h modal pokok Hmissing. unfold calc_profit, calc_profit_try, getitem.
    destruct (dict_lookup "buying_rate" h); simpl; [| done].
    destruct Hmissing as [? | ->]; done.
  - intros es s Hrun. apply reachable_inv in Hrun. split.
    + destruct Hrun as [_ _ _ _ Hp _].
      eapply Forall_impl; [exact Hp |]. apply build_single_history_item_Ok.
    + by apply build_full_state_bytes_Ok.
Qed.

End SnapshotFacts.

(** ** The poll loop's sleeps *)

Section Backoff.
Context `{PyRuntime}.

(** X20. Whatever the fetch returned, a turn sleeps the poll interval or
    the first backoff step: the handler always finds the counter at 0. *)
Lemma api_turn_slept st result :
  slept (api_turn st result).2 = API_POLL_INTERVAL ∨
  slept (api_turn st result).2 = backoff 1.
Proof.
  unfold api_turn. destruct (fetched result) as [v |]; [| by left].
  destruct (apply_result (api_globals st) v) as [[g sp] |]; [by left | by right].
Qed.

(** However many fetches fail in a row, every turn sleeps the poll
    interval; the counter alone grows. *)
Lemma failed_fetches_never_back_off (n : nat) : ∀ st,
  map slept (api_loop st (repeat None n)).2 = repeat API_POLL_INTERVAL n ∧
  consecutive_errors (api_loop st (repeat None n)).1
    = consecutive_errors st + Z.of_nat n.
Proof.
  induction n as [| n IH]; intros st; simpl.
  - split; [done | lia].
  - destruct (api_loop _ (repeat None n)) as [st' ts] eqn:Hloop.
    specialize (IH {| api_globals := api_globals st;
                      consecutive_errors := consecutive_errors st + 1 |}).
    rewrite Hloop in IH. simpl in *. destruct IH as [-> ->]. split; [done | lia].
Qed.

(** C2, evaluated on five fetches in a row that return [None]: the
    counter goes from 0 to 5 and every turn sleeps the 20 ms poll
    interval, where [min(errorCount × base, cap)] is 100, 200, 300, 400,
    500 ms. *)
Theorem failed_fetches_sleep_poll_interval (g : Globals) :
  map slept (api_loop (api_start g) [None; None; None; None; None]).2
    = [20; 20; 20; 20; 20] ∧
  consecutive_errors (api_loop (api_start g) [None; None; None; None; None]).1 = 5 ∧
  api_globals (api_loop (api_start g) [None; None; None; None; None]).1 = g ∧
  map backoff [1; 2; 3; 4; 5] = [100; 200; 300; 400; 500].
Proof. repeat split. Qed.

End Backoff.

(** ** The debounce path *)

Section Debounce.
Context `{PyRuntime}.

Lemma quiet_step_in_window s0 s e s' due :
  in_window s0 s due → quiet e = true → step s e = Some s' →
  in_window s0 s' due.
Proof.
  intros [Hp Hc Hs Hb].
  destruct e as [result | price now_wib | text | now | now | now]; simpl;
    try discriminate; intros _.
  - destruct (api_turn _ result) as [st t]. intros [= <-]. by split.
  - destruct (usd_turn _ price now_wib) as [g t]. intros [= <-]. by split.
  - destruct (atur_handler _ text) as [g sp]. intros [= <-]. by split.
  - destruct (created s); [discriminate |]. intros [= <-].
    unfold schedule_broadcast_start. rewrite Hp. by split.
Qed.

Lemma quiet_run_in_window s0 es : ∀ s s' due,
  in_window s0 s due → forallb quiet es = true → run s es = Some s' →
  in_window s0 s' due.
Proof.
  induction es as [| e es IH]; simpl; intros s s' due Hwin Hq.
  - by intros [= <-].
  - apply andb_prop in Hq as [He Hes].
    destruct (step s e) as [s1 |] eqn:Hstep; [| discriminate].
    intros Hrun. eapply IH; [| done | exact Hrun].
    by eapply quiet_step_in_window.
Qed.

Lemma run_app s es1 es2 s' :
  run s (es1 ++ es2) = Some s' ↔
  ∃ s1, run s es1 = Some s1 ∧ run s1 es2 = Some s'.
Proof.
  revert s. induction es1 as [| e es1 IH]; simpl; intros s.
  - split; [by exists s | by intros (s1 & [= <-] & ?)].
  - destruct (step s e) as [s1 |]; [apply IH |].
    split; [done | by intros (? & ? & _)].
Qed.

(** X19. A burst with no reader in the window: the calls of
    [schedule_broadcast] that follow the first one change nothing but the
    task count, and the wake-up hands exactly one message to
    [manager.broadcast], built from the globals as they are then. *)
Lemma burst_without_reader s t0 es t s' :
  _pending s = false → sleeping s = [] →
  forallb quiet es = true →
  run s (Notify t0 :: es ++ [Wake t]) = Some s' →
  t0 + BROADCAST_DEBOUNCE ≤ t ∧
  match build_full_state_bytes (globals s') with
  | Ok b => broadcasts s' = broadcasts s ++ [b]
  | Raise _ => broadcasts s' = broadcasts s
  end.
Proof.
  intros Hp Hs Hq. simpl.
  destruct (created s) as [| n] eqn:Hcreated; [discriminate |].
  intros Hrun. apply run_app in Hrun as (s1 & Hrun & Hwake).
  assert (Hwin : in_window s (schedule_broadcast_start s t0) (t0 + BROADCAST_DEBOUNCE)).
  { unfold schedule_broadcast_start. rewrite Hp, Hs. by split. }
  pose proof (quiet_run_in_window _ _ _ _ _ Hwin Hq Hrun) as [Hp1 Hc1 Hs1 Hb1].
  simpl in Hwake. rewrite Hs1 in Hwake.
  destruct (Z.leb_spec (t0 + BROADCAST_DEBOUNCE) t) as [Hdue |]; [| discriminate].
  injection Hwake as <-. split; [done |].
  unfold schedule_broadcast_resume, get_state_bytes, fresh_cache.
  rewrite Hc1.
  destruct (build_full_state_bytes (globals s1)) as [b |] eqn:Hbuild; simpl;
    rewrite Hbuild; by rewrite Hb1.
Qed.

End Debounce.

(** C1, evaluated on a burst with a reader in the window. A tick is
    recorded and [schedule_broadcast] invalidates the cache at 0 ms; a
    reader rebuilds the cache at 1 ms; a second tick is recorded and
    the second [schedule_broadcast], at 2 ms, returns at the pending test;
    the wake-up at 8 ms finds the reader's bytes younger than 50 ms.
    Exactly one message is broadcast, and it is the snapshot of the state
    after the first tick, not of the two-item state at the end of the
    window. *)
Theorem burst_with_reader_broadcasts_stale_snapshot :
  ∃ s1 s b1 b,
    @run sample_runtime boot [PriceFetched (Some tick_U1)] = Some s1 ∧
    @build_full_state_bytes sample_runtime (globals s1) = Ok b1 ∧
    @run sample_runtime boot burst_with_reader = Some s ∧
    @build_full_state_bytes sample_runtime (globals s) = Ok b ∧
    length (history (globals s1)) = 1%nat ∧
    length (history (globals s)) = 2%nat ∧
    broadcasts s = [b1] ∧
    b1 ≠ b.
Proof.
  let r := eval vm_compute in
    (@run sample_runtime boot [PriceFetched (Some tick_U1)]) in
  match r with Some ?s1 => exists s1 end.
  let r := eval vm_compute in (@run sample_runtime boot burst_with_reader) in
  match r with Some ?s => exists s end.
  let r := eval vm_compute in
    (match @run sample_runtime boot [PriceFetched (Some tick_U1)] with
     | Some s1 => @build_full_state_bytes sample_runtime (globals s1)
     | None => Raise KeyError
     end) in
  match r with Ok ?b1 => exists b1 end.
  let r := eval vm_compute in
    (match @run sample_runtime boot burst_with_reader with
     | Some s => @build_full_state_bytes sample_runtime (globals s)
     | None => Raise KeyError
     end) in
  match r with Ok ?b => exists b end.
  repeat split; try (vm_compute; reflexivity).
  intros Heq. vm_compute in Heq. discriminate Heq.
Qed.

(** ** The properties on sample runs *)

(** Buy 1,000,000 then buy 1,050,000: the second tick is stored with the
    up mark and diff 50000, displayed as the mark followed by "+50.000". *)
Example tick_up_scenario :
  (history <$> (globals <$>
     @run sample_runtime boot
       [PriceFetched (Some tick_U1); PriceFetched (Some tick_U2)]))
  = Some [ price_item 1000000 990000 FLAT 0 (PStr "U1");
           price_item 1050000 1040000 ROCKET 50000 (PStr "U2") ] ∧
  format_diff_display (PInt 50000) (PStr ROCKET)
  = Ok (ROCKET +:+ "+50.000").
Proof. split; vm_compute; reflexivity. Qed.

Lemma digits_fuel_nonempty fuel n acc : acc ≠ [] → digits_fuel fuel n acc ≠ [].
Proof.
  revert n acc. induction fuel as [| fuel IH]; simpl; intros n acc Hacc; [done |].
  destruct (n / 10 =? 0); [done |]. by apply IH.
Qed.

Lemma json_compact_nonempty v : json_compact v ≠ "".
Proof.
  destruct v as [| [|] | z | s | l | d]; simpl; try discriminate.
  assert (Hd : ∀ n, string_of_chars (digits n) ≠ "").
  { intros n. unfold digits. simpl.
    destruct (n / 10 =? 0); [discriminate |].
    pose proof (digits_fuel_nonempty (Z.to_nat (Z.log2 n)) (n / 10)
                  [digit_char (n `mod` 10)]) as Hne.
    destruct (digits_fuel _ _ _); [by exfalso; apply Hne | discriminate]. }
  destruct (z <? 0); [discriminate | apply Hd].
Qed.

Ltac exists_run r :=
  let v := eval vm_compute in r in
  match v with
  | Some ?s => exists s
  end.

Ltac exists_turn r :=
  let v := eval vm_compute in r in
  match v with
  | (?st, ?t) => exists st, t
  end.

Lemma recorded_tick_status_and_diff_witness :
  ∃ s s',
    @run sample_runtime boot [PriceFetched (Some tick_U1)] = Some s ∧
    @step sample_runtime s (PriceFetched (Some tick_U2)) = Some s' ∧
    history (globals s') ≠ history (globals s) ∧
    ∃ item buy status diff,
      last (history (globals s')) = Some item ∧
      dict_lookup "buying_rate" item = Some (PInt buy) ∧
      dict_lookup "status" item = Some (PStr status) ∧
      dict_lookup "diff" item = Some (PInt diff) ∧
      (status = ROCKET ↔ ∃ p, prev_buy (history (globals s)) = Some p ∧ p < buy) ∧
      (status = DOWN ↔ ∃ p, prev_buy (history (globals s)) = Some p ∧ buy < p) ∧
      (status = FLAT ↔
         prev_buy (history (globals s)) = None ∨
         prev_buy (history (globals s)) = Some buy) ∧
      diff = match prev_buy (history (globals s)) with
             | Some p => buy - p
             | None => 0
             end.
Proof.
  exists_run (@run sample_runtime boot [PriceFetched (Some tick_U1)]).
  exists_run (@run sample_runtime boot
                [PriceFetched (Some tick_U1); PriceFetched (Some tick_U2)]).
  assert (H1 : @run sample_runtime boot [PriceFetched (Some tick_U1)] = Some _)
    by (vm_compute; reflexivity).
  split; [exact H1 |].
  match goal with
  | |- ?A ∧ ?B ∧ _ =>
      assert (H2 : A) by (vm_compute; reflexivity);
      assert (H3 : B) by (vm_compute; discriminate)
  end.
  split; [exact H2 |]. split; [exact H3 |].
  exact (@recorded_tick_status_and_diff sample_runtime _ _ _ _ H1 H2 H3).
Defined.

Lemma same_update_id_recorded_once_witness :
  ∃ st1 t1 st2 t2,
    update_id tick_U1 = Ok (PStr "U1") ∧
    update_id tick_U1_again = Ok (PStr "U1") ∧
    py_key (PStr "U1") = Ok (Some (inr "U1")) ∧
    items_with_id (Some (inr "U1")) (history initial_globals) = [] ∧
    @api_turn sample_runtime (api_start initial_globals) (Some tick_U1) = (st1, t1) ∧
    spawned t1 = true ∧
    @api_turn sample_runtime st1 (Some tick_U1_again) = (st2, t2) ∧
    api_globals st2 = api_globals st1 ∧ spawned t2 = false ∧
    length (items_with_id (Some (inr "U1")) (history (api_globals st2))) = 1%nat.
Proof.
  exists_turn (@api_turn sample_runtime (api_start initial_globals) (Some tick_U1)).
  exists_turn
    (@api_turn sample_runtime
       (@api_turn sample_runtime (api_start initial_globals) (Some tick_U1)).1
       (Some tick_U1_again)).
  match goal with
  | |- ?A ∧ ?B ∧ ?C ∧ ?D ∧ ?E ∧ ?F ∧ ?G ∧ _ =>
      assert (Ha : A) by reflexivity;
      assert (Hb : B) by reflexivity;
      assert (Hc : C) by reflexivity;
      assert (Hd : D) by reflexivity;
      assert (He : E) by (vm_compute; reflexivity);
      assert (Hf : F) by reflexivity;
      assert (Hg : G) by (vm_compute; reflexivity)
  end.
  do 7 (split; [assumption |]).
  exact (@same_update_id_recorded_once sample_runtime
           (api_start initial_globals) _ _ _ _ _ _ _ _
           Ha Hb Hc Hd He Hf Hg).
Defined.

Lemma numbered_keys_size (n : nat) :
  size (list_to_set (numbered_key <$> seq 1 n) : gset pykey) = n.
Proof.
  rewrite size_list_to_set, length_fmap, length_seq; [done |].
  apply NoDup_fmap_2; [| apply NoDup_seq].
  intros i j [= Hij]. lia.
Qed.

Lemma numbered_key_fresh (n : nat) :
  numbered_key (S n) ∉ (list_to_set (numbered_key <$> seq 1 n) : gset pykey).
Proof.
  rewrite elem_of_list_to_set, list_elem_of_fmap.
  intros (i & [= Hi] & Hin). apply elem_of_seq in Hin. lia.
Qed.

Lemma price_step_total `{PyRuntime} s result :
  ∃ s', step s (PriceFetched result) = Some s'.
Proof. simpl. destruct (api_turn _ result). by eexists. Qed.

Lemma length_tail_snoc {A} (l : list A) (x : A) :
  l ≠ [] → length (tail l ++ [x]) = length l.
Proof. destruct l; [done |]. intros _. rewrite length_app. simpl. lia. Qed.

(** After the first [n] numbered ticks the set holds their [n] ids and
    the history their items, up to its capacity. *)
Lemma many_ticks_reach (n : nat) :
  (n ≤ 5000)%nat →
  ∃ s,
    @run sample_runtime boot (many_ticks n) = Some s ∧
    length (history (globals s)) = Nat.min n 1441 ∧
    shown_updates (globals s) = list_to_set (numbered_key <$> seq 1 n) ∧
    last_buy (globals s) = match n with O => None | S _ => Some 1000000 end.
Proof.
  induction n as [| n IH]; intros Hn.
  { exists boot. by repeat split. }
  destruct IH as (s & Hrun & Hlen & Hshown & Hlast); [lia |].
  assert (Hbuy : @py_int_float sample_runtime (PInt 1000000) = Ok 1000000)
    by (vm_compute; reflexivity).
  assert (Hsell : @py_int_float sample_runtime (PInt 990000) = Ok 990000)
    by (vm_compute; reflexivity).
  assert (Hrec : ∃ g', @record_price sample_runtime (globals s) (PInt 1000000)
                         (PInt 990000) (PInt (Z.of_nat (S n))) (numbered_key (S n))
                       = Ok g').
  { unfold record_price. rewrite Hbuy, Hsell. cbn [mbind res_bind]. by eexists. }
  destruct Hrec as [g' Hrec].
  assert (Hnew : numbered_key (S n) ∉ shown_updates (globals s)).
  { rewrite Hshown. apply numbered_key_fresh. }
  assert (Hu : truthy (PInt (Z.of_nat (S n))) = true).
  { unfold truthy. destruct (Z.eqb_spec (Z.of_nat (S n)) 0); [lia | done]. }
  pose proof (@step_price_doc sample_runtime s (PInt 1000000) (PInt 990000)
                (PInt (Z.of_nat (S n))) (numbered_key (S n)) g'
                eq_refl eq_refl Hu eq_refl Hnew Hrec) as Hstep.
  exists (with_globals s g' 0 true).
  split.
  { unfold many_ticks. rewrite seq_S, fmap_app. apply run_app.
    exists s. split; [exact Hrun |]. simpl.
    unfold numbered_tick in *. simpl in Hstep. by rewrite Hstep. }
  apply record_price_Ok in Hrec as (b & sl & Hb & _ & ->).
  cbn [globals with_globals history shown_updates last_buy].
  rewrite Hbuy in Hb. injection Hb as <-.
  split; [| split; [| done]].
  - unfold deque_append. rewrite length_app. simpl.
    unfold MAX_HISTORY.
    destruct (Nat.ltb_spec 1441 (length (history (globals s)) + 1)) as [Hlt | Hge].
    + destruct (history (globals s)) as [| a d]; simpl in *; [lia |].
      rewrite length_app. simpl. lia.
    + rewrite length_app. simpl. lia.
  - rewrite (proj1 (remember_update_fresh _ _ Hnew))
      by (rewrite Hshown, numbered_keys_size; exact Hn).
    rewrite Hshown, seq_S, fmap_app, list_to_set_app_L. simpl.
    set_solver.
Qed.

Lemma histories_bounded_oldest_evicted_witness :
  (∃ s s',
     @run sample_runtime boot (many_ticks 1441) = Some s ∧
     @step sample_runtime s (numbered_tick 1442) = Some s' ∧
     length (history (globals s)) = 1441%nat ∧
     length (history (globals s')) = 1441%nat ∧
     history (globals s') =
       tail (history (globals s))
       ++ [price_item 1000000 990000 FLAT 0 (PInt (Z.of_nat 1442))]) ∧
  (∃ s s',
     @run sample_runtime boot eleven_rates = Some s ∧
     @step sample_runtime s (RateFetched (Some "16.012") "10:12:00") = Some s' ∧
     length (usd_idr_history (globals s)) = 11%nat ∧
     length (usd_idr_history (globals s')) = 11%nat ∧
     usd_idr_history (globals s') =
       tail (usd_idr_history (globals s)) ++ [rate_item "16.012" "10:12:00"]).
Proof.
  split.
  - assert (Hn : (1441 ≤ 5000)%nat) by (apply Nat.leb_le; vm_compute; reflexivity).
    destruct (many_ticks_reach 1441 Hn) as (s & Hrun & Hlen & Hshown & Hlast).
    rewrite Nat.min_id in Hlen.
    destruct (@price_step_total sample_runtime s
                (Some (price_doc (PInt 1000000) (PInt 990000) (PInt (Z.of_nat 1442)))))
      as [s' Hstep].
    exists s, s'.
    assert (Hnew : numbered_key 1442 ∉ shown_updates (globals s)).
    { rewrite Hshown. apply numbered_key_fresh. }
    assert (Hbuy : @py_int_float sample_runtime (PInt 1000000) = Ok 1000000)
      by (vm_compute; reflexivity).
    assert (Hsell : @py_int_float sample_runtime (PInt 990000) = Ok 990000)
      by (vm_compute; reflexivity).
    assert (Hu : truthy (PInt (Z.of_nat 1442)) = true) by (vm_compute; reflexivity).
    pose proof (proj1 (proj2 (proj2 (proj2 (proj2
      (@histories_bounded_oldest_evicted sample_runtime _ _ _ _ Hrun Hstep)))))
      (PInt 1000000) (PInt 990000) (PInt (Z.of_nat 1442)) (numbered_key 1442)
      1000000 990000
      eq_refl eq_refl eq_refl Hu eq_refl Hnew Hbuy Hsell) as Hhist.
    rewrite Hlen, Hlast in Hhist.
    assert (Hhist' :
      history (globals s') =
        tail (history (globals s))
        ++ [price_item 1000000 990000 FLAT 0 (PInt (Z.of_nat 1442))])
      by exact Hhist.
    split; [exact Hrun |]. split; [exact Hstep |]. split; [exact Hlen |].
    split; [| exact Hhist'].
    rewrite Hhist', length_tail_snoc; [exact Hlen |].
    intros Hnil. rewrite Hnil in Hlen. discriminate Hlen.
  - exists_run (@run sample_runtime boot eleven_rates).
    exists_run (@run sample_runtime boot
                  (eleven_rates ++ [RateFetched (Some "16.012") "10:12:00"])).
    match goal with
    | |- ?A ∧ ?B ∧ ?C ∧ ?D ∧ _ =>
        assert (H1 : A) by (vm_compute; reflexivity);
        assert (H2 : B) by (vm_compute; reflexivity);
        assert (H3 : C) by reflexivity;
        assert (H4 : D) by reflexivity
    end.
    split; [exact H1 |]. split; [exact H2 |]. split; [exact H3 |].
    split; [exact H4 |].
    exact (proj2 (proj2 (proj2 (proj2 (proj2
      (@histories_bounded_oldest_evicted sample_runtime _ _ _ _ H1 H2)))))
      "16.012" "10:12:00" eq_refl ltac:(discriminate) ltac:(vm_compute; reflexivity)).
Defined.

Lemma shown_updates_capped_witness :
  ∃ s s',
    @run sample_runtime boot (many_ticks 5000) = Some s ∧
    @step sample_runtime s (numbered_tick 5001) = Some s' ∧
    size (shown_updates (globals s)) = 5000%nat ∧
    (numbered_key 5001 ∉ shown_updates (globals s)) ∧
    numbered_key 5001 ∈ shown_updates (globals s') ∧
    shown_updates (globals s') = {[ numbered_key 5001 ]}.
Proof.
  destruct (many_ticks_reach 5000 (le_n _)) as (s & Hrun & _ & Hshown & _).
  destruct (@price_step_total sample_runtime s
              (Some (price_doc (PInt 1000000) (PInt 990000) (PInt (Z.of_nat 5001)))))
    as [s' Hstep].
  exists s, s'.
  assert (Hsize : size (shown_updates (globals s)) = 5000%nat).
  { rewrite Hshown. apply numbered_keys_size. }
  assert (Hnew : numbered_key 5001 ∉ shown_updates (globals s)).
  { rewrite Hshown. apply numbered_key_fresh. }
  assert (Hbuy : @py_int_float sample_runtime (PInt 1000000) = Ok 1000000)
    by (vm_compute; reflexivity).
  assert (Hsell : @py_int_float sample_runtime (PInt 990000) = Ok 990000)
    by (vm_compute; reflexivity).
  assert (Hu : truthy (PInt (Z.of_nat 5001)) = true) by (vm_compute; reflexivity).
  pose proof (proj2 (proj2
    (@shown_updates_capped sample_runtime _ _ _ _ Hrun Hstep))
    (PInt 1000000) (PInt 990000) (PInt (Z.of_nat 5001)) (numbered_key 5001)
    1000000 990000
    eq_refl eq_refl eq_refl Hu eq_refl Hnew Hbuy Hsell)
    as (Hin & _ & _ & Hcut).
  split; [exact Hrun |]. split; [exact Hstep |]. split; [exact Hsize |].
  split; [exact Hnew |]. split; [exact Hin |]. exact (Hcut Hsize).
Defined.

Lemma cache_hit_and_single_rebuild_witness :
  (∀ v, @json_dumps_bytes sample_runtime v ≠ "") ∧
  rebuild_count
    (@get_state_bytes_many sample_runtime (invalidate new_state_cache)
       initial_globals [100; 100; 120; 149]).2 = 1%nat.
Proof.
  assert (Hne : ∀ v, @json_dumps_bytes sample_runtime v ≠ "")
    by exact json_compact_nonempty.
  split; [exact Hne |].
  destruct (@cache_hit_and_single_rebuild sample_runtime Hne) as [_ Hsingle].
  assert (Hbuild : ∃ b, @build_full_state_bytes sample_runtime initial_globals = Ok b)
    by (eexists; reflexivity).
  destruct Hbuild as [b Hbuild].
  refine (proj1 (Hsingle new_state_cache initial_globals b 100 [100; 120; 149] Hbuild _)).
  repeat constructor; lia.
Defined.

Lemma broadcast_evicts_failed_witness :
  let net := fun w : ws => if (w =? 1)%nat then Hangs else Completes 3 in
  1%nat ∈ broadcast_failed net (elements ({[ 0%nat; 1%nat; 2%nat ]} : gset ws)) ∧
  1%nat ∉ broadcast_among net {[ 0%nat; 1%nat; 2%nat ]} {[ 0%nat; 1%nat; 2%nat; 7%nat ]}.
Proof.
  intros net.
  destruct (broadcast_evicts_failed net {[ 0%nat; 1%nat; 2%nat ]}
              {[ 0%nat; 1%nat; 2%nat; 7%nat ]})
    as (_ & _ & _ & Hmarked & Hgone & _).
  assert (Hfailed : 1%nat ∈ broadcast_failed net (elements ({[ 0%nat; 1%nat; 2%nat ]} : gset ws))).
  { apply Hmarked. split; [set_solver |]. intros (d & Hd & _). discriminate Hd. }
  split; [exact Hfailed | exact (Hgone 1%nat Hfailed)].
Defined.

Lemma connect_admission_witness :
  size (list_to_set (seq 0 500) : gset ws) = 500%nat ∧
  connect (list_to_set (seq 0 500)) 500%nat = (list_to_set (seq 0 500), false) ∧
  (size (∅ : gset ws) < 500)%nat ∧
  connect ∅ 7%nat = ({[ 7%nat ]} ∪ ∅, true).
Proof.
  assert (Hfull : size (list_to_set (seq 0 500) : gset ws) = 500%nat)
    by (vm_compute; reflexivity).
  assert (Hfree : (size (∅ : gset ws) < 500)%nat)
    by (rewrite size_empty; lia).
  split; [exact Hfull |].
  split; [exact (proj1 (proj1 (connect_admission (list_to_set (seq 0 500)) 500%nat) Hfull)) |].
  split; [exact Hfree |].
  exact (proj1 (proj2 (connect_admission ∅ 7%nat) Hfree)).
Defined.

Lemma calc_profit_never_raises_witness :
  calc_profit [("buying_rate", PInt 0); ("selling_rate", PInt 1000000)]
    20000000 19314000 = Ok "-" ∧
  calc_profit [("selling_rate", PInt 1000000)] 20000000 19314000 = Ok "-".
Proof.
  destruct (@calc_profit_never_raises sample_runtime) as (_ & Hzero & Hmissing & _).
  split.
  - refine (proj2 (Hzero _ _ _ _ _)); [reflexivity | discriminate].
  - refine (proj2 (Hmissing _ _ _ _)). by left.
Defined.

(** * Further properties of the code *)

(** ** Changes of the globals along a run *)

Section Reachable.
Context `{PyRuntime}.

Lemma usd_turn_recorded g p now_wib g' t :
  usd_turn g (Some p) now_wib = (g', t) → spawned t = true →
  p ≠ "" ∧ should_update (usd_idr_history g) p = Ok true.
Proof.
  unfold usd_turn. destruct (String.eqb_spec p ""); simpl.
  - intros [= <- <-]. discriminate.
  - destruct (should_update (usd_idr_history g) p) as [[|] |];
      intros [= <- <-]; simpl; try discriminate. done.
Qed.

Lemma step_change s e s' :
  step s e = Some s' →
  globals s' = globals s ∨ change (globals s) (globals s').
Proof.
  destruct e as [result | price now_wib | text | now | now | now].
  - intros Hstep.
    apply step_price_cases in Hstep
      as [-> | (buy & sell & upd & k & g' & Hk & Hnew & Hrec & ->)]; [by left |].
    right. by eapply change_price.
  - simpl. destruct (usd_turn _ price now_wib) as [g t] eqn:Hturn.
    intros [= <-]. simpl.
    pose proof Hturn as Hcases.
    apply usd_turn_cases in Hcases as [[_ ->] | (Hsp & p & -> & ->)]; [by left |].
    apply usd_turn_recorded in Hturn as [Hp Hshould]; [| done].
    right. by apply change_rate.
  - simpl. unfold atur_handler.
    destruct (String.eqb_spec text ""); simpl; intros [= <-]; simpl; [by left |].
    right. by apply change_info.
  - simpl. destruct (created s); [discriminate |]. intros [= <-].
    left. unfold schedule_broadcast_start. by destruct (_pending s).
  - simpl. destruct (sleeping s) as [| due rest]; [discriminate |].
    destruct (due <=? now); [| discriminate]. intros [= <-].
    left. unfold schedule_broadcast_resume. by destruct (get_state_bytes _ _ _).
  - simpl. intros [= <-]. left. unfold read_state.
    by destruct (get_state_bytes _ _ _).
Qed.

(** Induction over the states a run reaches. *)
Lemma reachable_ind (P : Globals → Prop) :
  P initial_globals →
  (∀ g g', globals_inv g → P g → change g g' → P g') →
  ∀ es s, run boot es = Some s → P (globals s).
Proof.
  intros Hinit Hchange.
  assert (Hgen : ∀ es s0 s,
            globals_inv (globals s0) → P (globals s0) →
            run s0 es = Some s → P (globals s)).
  { induction es as [| e es IH]; simpl; intros s0 s Hinv HP.
    - by intros [= <-].
    - destruct (step s0 e) as [s1 |] eqn:Hstep; [| discriminate].
      apply IH; [by eapply step_inv |].
      apply step_change in Hstep as [-> | Hc]; [done |]. by eapply Hchange. }
  intros es s. apply Hgen; [apply initial_globals_inv | exact Hinit].
Qed.

End Reachable.

(** ** Neighbours in a bounded deque *)

Lemma adjacent_snoc {A} (R : A → A → Prop) (l : list A) (x : A) :
  adjacent R l → (∀ a, last l = Some a → R a x) → adjacent R (l ++ [x]).
Proof.
  intros Hadj Hlast i a b Ha Hb.
  destruct (decide (S i < length l)%nat) as [Hin | Hout].
  - rewrite lookup_app_l in Ha by lia. rewrite lookup_app_l in Hb by lia.
    by eapply Hadj.
  - assert (Hi : (i < length l)%nat).
    { apply lookup_lt_Some in Hb. rewrite length_app in Hb. simpl in Hb. lia. }
    rewrite lookup_app_l in Ha by lia.
    rewrite lookup_app_r in Hb by lia.
    replace (S i - length l)%nat with 0%nat in Hb by lia.
    injection Hb as <-. apply Hlast.
    rewrite last_lookup. replace (pred (length l)) with i by lia. done.
Qed.

Lemma adjacent_tail {A} (R : A → A → Prop) (l : list A) :
  adjacent R l → adjacent R (tail l).
Proof.
  destruct l as [| x l]; [done |]. intros Hadj i a b Ha Hb.
  by apply (Hadj (S i) a b).
Qed.

Lemma last_tail {A} (l : list A) (a : A) :
  last (tail l) = Some a → last l = Some a.
Proof.
  destruct l as [| x l]; [done |]. simpl. destruct l; [done |]. done.
Qed.

Lemma adjacent_deque_append {A} (R : A → A → Prop) (n : nat) (d : list A) (x : A) :
  (0 < n)%nat → (length d ≤ n)%nat →
  adjacent R d → (∀ a, last d = Some a → R a x) →
  adjacent R (deque_append n d x).
Proof.
  intros Hpos Hlen Hadj Hlast. rewrite deque_append_cases by done.
  destruct (length d <? n)%nat.
  - by apply adjacent_snoc.
  - apply adjacent_snoc; [by apply adjacent_tail |].
    intros a Ha. by apply Hlast, last_tail.
Qed.

(** X18. Whatever is appended to a [deque(maxlen=n)], it holds the newest
    [n] of the items it started with and was given, in their order. *)
Theorem deque_keeps_newest {A} (n : nat) (xs d : list A) :
  (length d ≤ n)%nat →
  foldl (deque_append n) d xs = drop (length (d ++ xs) - n) (d ++ xs).
Proof.
  revert d. induction xs as [| x xs IH]; intros d Hlen.
  - simpl. rewrite app_nil_r. replace (length d - n)%nat with 0%nat by lia. done.
  - simpl. rewrite IH by (by apply deque_append_length).
    unfold deque_append. rewrite !length_app. simpl.
    destruct (Nat.ltb_spec n (length d + 1)) as [Hfull | Hroom].
    + assert (length d = n) as Hn by lia.
      destruct d as [| a d]; simpl in *.
      * subst n. by rewrite Nat.sub_0_r.
      * rewrite !length_app. simpl.
        replace (length d + 1 + length xs - n)%nat with (length xs) by lia.
        replace (S (length d + S (length xs)) - n)%nat with (S (length xs)) by lia.
        simpl. by rewrite <- app_assoc.
    + rewrite !length_app. simpl. rewrite <- app_assoc. simpl.
      f_equal. lia.
Qed.

(** ** What the pollers keep true *)

Section PollerInvariants.
Context `{PyRuntime}.

Lemma should_update_last hist item p :
  last hist = Some item → should_update hist p = Ok true →
  item_price item ≠ Ok (PStr p).
Proof.
  unfold should_update, item_price. intros ->.
  destruct (getitem item "price") as [v |]; simpl; [| discriminate].
  intros [= Hneq] [= ->]. simpl in Hneq.
  by rewrite String.eqb_refl in Hneq.
Qed.

(** X1. Along every run, no rate item is stored right after an item with
    the same price. *)
Theorem rate_history_never_repeats (es : list event) (s : System) :
  run boot es = Some s →
  adjacent (fun a b => item_price a ≠ item_price b) (usd_idr_history (globals s)).
Proof.
  revert es s.
  apply (reachable_ind
           (fun g => adjacent (fun a b => item_price a ≠ item_price b)
                       (usd_idr_history g))).
  - intros i a b Ha. done.
  - intros g g' [_ Hlen _ _ _ _] Hadj Hchange.
    destruct Hchange as [g buy sell upd k g' _ _ Hrec | g p now_wib Hp Hshould | g text _];
      simpl; try done.
    + apply record_price_Ok in Hrec as (b & sl & _ & _ & ->). done.
    + apply adjacent_deque_append; [unfold MAX_USD_HISTORY; lia | done | done |].
      intros a Ha. by apply should_update_last with (p := p) in Ha.
Qed.

(** X2. Once a rate is recorded, fetching the same price again, any
    number of times, changes nothing and spawns no broadcast. *)
Theorem same_rate_recorded_once
    (g g1 : Globals) (t1 : Turn) (p now_wib : string) (again : list string) :
  usd_turn g (Some p) now_wib = (g1, t1) → spawned t1 = true →
  foldl (fun g' w => (usd_turn g' (Some p) w).1) g1 again = g1 ∧
  Forall (fun w => usd_turn g1 (Some p) w
                   = (g1, {| slept := USD_POLL_INTERVAL; spawned := false |}))
         again.
Proof.
  intros Hturn Hsp.
  pose proof (usd_turn_recorded _ _ _ _ _ Hturn Hsp) as [Hp _].
  apply usd_turn_cases in Hturn as [[Hno _] | (_ & p' & [= <-] & Hg1)];
    [congruence |].
  assert (Hsame : ∀ w,
    usd_turn g1 (Some p) w
    = (g1, {| slept := USD_POLL_INTERVAL; spawned := false |})).
  { intros w. unfold usd_turn. destruct (String.eqb_spec p ""); [done |]. simpl.
    unfold should_update. rewrite Hg1 at 1. simpl.
    rewrite deque_append_last by (unfold MAX_USD_HISTORY; lia).
    simpl. by rewrite String.eqb_refl. }
  split.
  - induction again as [| w again IH]; [done |].
    cbn [foldl]. by rewrite Hsame.
  - apply Forall_forall. intros w _. apply Hsame.
Qed.

Lemma status_of_matches last b :
  (status_of last b = ROCKET ∧ 0 < diff_of last b) ∨
  (status_of last b = DOWN ∧ diff_of last b < 0) ∨
  (status_of last b = FLAT ∧ diff_of last b = 0).
Proof.
  unfold status_of, diff_of. destruct last as [l |]; [| by right; right].
  destruct (Z.ltb_spec l b); [left; split; [done | lia] |].
  destruct (Z.ltb_spec b l); [right; left; split; [done | lia] |].
  right; right. split; [done | lia].
Qed.

(** X3. Along every run, every stored price item carries the up mark
    with a positive diff, the down mark with a negative diff, or the flat
    mark with diff 0. *)
Theorem stored_marks_match_diffs (es : list event) (s : System) :
  run boot es = Some s → Forall mark_matches_diff (history (globals s)).
Proof.
  revert es s.
  apply (reachable_ind (fun g => Forall mark_matches_diff (history g))).
  - constructor.
  - intros g g' _ Hall Hchange.
    destruct Hchange as [g buy sell upd k g' _ _ Hrec | g p now_wib _ _ | g text _];
      simpl; try done.
    apply record_price_Ok in Hrec as (b & sl & _ & _ & ->). simpl.
    apply deque_append_Forall; [done |].
    exists b, sl, (status_of (last_buy g) b), (diff_of (last_buy g) b), upd.
    split; [done | apply status_of_matches].
Qed.

(** X4. Along every run, no price item is stored right after an item
    with the same update id, and the id of the newest item is in
    [shown_updates], also right after the set was cut down. *)
Theorem neighbours_have_distinct_ids (es : list event) (s : System) :
  run boot es = Some s →
  adjacent (fun a b => item_key a ≠ item_key b) (history (globals s)) ∧
  newest_id_shown (globals s).
Proof.
  revert es s.
  apply (reachable_ind
           (fun g => adjacent (fun a b => item_key a ≠ item_key b) (history g) ∧
                     newest_id_shown g)).
  - split; [by intros i a b Ha | by intros item Hitem].
  - intros g g' [Hlen _ _ _ _ _] [Hadj Hnewest] Hchange.
    destruct Hchange as [g buy sell upd k g' Hk Hnew Hrec | g p now_wib _ _ | g text _];
      simpl; try done.
    apply record_price_Ok in Hrec as (b & sl & _ & _ & ->). simpl. split.
    + apply adjacent_deque_append; [unfold MAX_HISTORY; lia | done | done |].
      intros a Ha. destruct (Hnewest a Ha) as (k0 & -> & Hk0).
      unfold item_key. simpl. rewrite Hk. intros [= ->]. done.
    + intros item. unfold newest_id_shown. simpl.
      rewrite deque_append_last by (unfold MAX_HISTORY; lia).
      intros [= <-]. exists k. split; [exact Hk | apply remember_update_elem].
Qed.

(** X5. Recording an id when the set already holds 5000 others leaves
    only that id in the set: every id seen before passes the guard of
    [api_loop] again. *)
Theorem overflow_forgets_older_ids
    (g g' : Globals) (buy sell upd : pyval) (k : pykey) :
  size (shown_updates g) = 5000%nat → k ∉ shown_updates g →
  record_price g buy sell upd k = Ok g' →
  shown_updates g' = {[ k ]} ∧
  ∀ buy' sell' upd' k',
    k' ∈ shown_updates g → py_key upd' = Ok k' →
    truthy buy' = true → truthy sell' = true → truthy upd' = true →
    update_guard (shown_updates g) buy' sell' upd' = Ok false ∧
    update_guard (shown_updates g') buy' sell' upd' = Ok true.
Proof.
  intros Hsize Hnew Hrec.
  apply record_price_Ok in Hrec as (b & sl & _ & _ & ->). simpl.
  assert (Hcut : remember_update (shown_updates g) k = {[ k ]}).
  { unfold remember_update.
    rewrite size_union by set_solver. rewrite size_singleton, Hsize. done. }
  split; [exact Hcut |].
  intros buy' sell' upd' k' Hseen Hk' Hb Hs Hu.
  unfold update_guard. rewrite Hb, Hs, Hu, Hk'. simpl. split.
  - by rewrite bool_decide_eq_false_2 by (intros Hn; by apply Hn).
  - rewrite Hcut. rewrite bool_decide_eq_true_2; [done |]. set_solver.
Qed.

(** X6. Both pollers spawn [schedule_broadcast] exactly when the turn
    changed the globals. *)
Theorem pollers_spawn_iff_changed
    (st st' : ApiLoop) (t : Turn) (result : option pyval)
    (g g' : Globals) (t' : Turn) (price : option string) (now_wib : string) :
  api_turn st result = (st', t) →
  usd_turn g price now_wib = (g', t') →
  (spawned t = true ↔ api_globals st' ≠ api_globals st) ∧
  (spawned t' = true ↔ g' ≠ g).
Proof.
  intros Hapi Husd. split.
  - apply api_turn_cases in Hapi
      as [[Hsp ->] | (Hsp & _ & _ & v & b1 & s1 & upd & k & _ & _ & _ & Hk & Hnew & Hrec)].
    + rewrite Hsp. split; [discriminate | done].
    + split; [intros _ | done].
      apply record_price_Ok in Hrec as (b & sl & _ & _ & Hg).
      intros Heq. apply Hnew. rewrite <- Heq, Hg. simpl. apply remember_update_elem.
  - pose proof Husd as Hcases.
    apply usd_turn_cases in Hcases as [[Hsp ->] | (Hsp & p & -> & Hg)].
    + rewrite Hsp. split; [discriminate | done].
    + split; [intros _ | done].
      apply usd_turn_recorded in Husd as [_ Hshould]; [| done].
      intros Heq. rewrite Hg in Heq.
      assert (Hlast : last (usd_idr_history g) = Some (rate_item p now_wib)).
      { rewrite <- Heq at 1. simpl.
        apply deque_append_last. unfold MAX_USD_HISTORY. lia. }
      by apply should_update_last with (p := p) in Hlast.
Qed.

(** X7. Along every run, [last_buy] is [None] exactly while the price
    history is empty, and otherwise the buy rate of its newest item. *)
Theorem last_buy_mirrors_history (es : list event) (s : System) :
  run boot es = Some s →
  last_buy (globals s) = prev_buy (history (globals s)) ∧
  (last_buy (globals s) = None ↔ history (globals s) = []).
Proof.
  intros Hrun. apply reachable_inv in Hrun as [_ _ _ Hlast Hitems _].
  split; [exact Hlast |]. rewrite Hlast. unfold prev_buy.
  destruct (last (history (globals s))) as [item |] eqn:Hitem.
  - assert (Hin : item ∈ history (globals s)).
    { rewrite last_lookup in Hitem. by eapply list_elem_of_lookup_2. }
    rewrite Forall_forall in Hitems.
    destruct (Hitems item Hin) as (b & sl & st & d & upd & k & -> & _). simpl.
    split; [discriminate | intros Hnil; by rewrite Hnil in Hitem].
  - split; [intros _ | done]. by apply last_None.
Qed.

End PollerInvariants.

(** ** The annotation *)

Lemma has_char_append a s1 s2 :
  has_char a (s1 +:+ s2) = has_char a s1 || has_char a s2.
Proof.
  induction s1 as [| c s1 IH]; simpl; [done |]. by rewrite IH, orb_assoc.
Qed.

Lemma prefix_newline c s :
  String.prefix NEWLINE (String c s) = Ascii.eqb c LINE_FEED.
Proof.
  change (String.prefix NEWLINE (String c s))
    with (if ascii_dec LINE_FEED c then String.prefix "" s else false).
  destruct (ascii_dec LINE_FEED c) as [<- | Hne].
  - rewrite Ascii.eqb_refl. by destruct s.
  - symmetry. apply Ascii.eqb_neq. congruence.
Qed.

Lemma line_feeds_replaced s :
  has_char LINE_FEED (str_replace NEWLINE "<br>" s) = false.
Proof.
  unfold str_replace. induction s as [| c s IH]; [done |].
  cbn [str_replace_go]. rewrite prefix_newline.
  destruct (Ascii.eqb c LINE_FEED) eqn:Hc.
  - change (String.length NEWLINE - 1)%nat with 0%nat.
    by rewrite has_char_append, IH.
  - cbn [has_char]. by rewrite Hc, IH.
Qed.

Section Annotation.
Context `{PyRuntime}.

(** X8. Along every run, the annotation holds no line feed: [/atur]
    stores its text with every line feed turned into a break tag, and an
    empty text is ignored. *)
Theorem annotation_has_no_line_feed (es : list event) (s : System) :
  run boot es = Some s →
  has_char LINE_FEED (treasury_info (globals s)) = false.
Proof.
  revert es s.
  apply (reachable_ind (fun g => has_char LINE_FEED (treasury_info g) = false)).
  - reflexivity.
  - intros g g' _ Hclean Hchange.
    destruct Hchange as [g buy sell upd k g' _ _ Hrec | g p now_wib _ _ | g text _];
      simpl; try done.
    + apply record_price_Ok in Hrec as (b & sl & _ & _ & ->). done.
    + apply line_feeds_replaced.
Qed.

End Annotation.

(** ** The debouncer along a run *)

Section SingleFlight.
Context `{PyRuntime}.

Lemma get_state_bytes_version c now g :
  _version (get_state_bytes c now g).1 = _version c.
Proof.
  unfold get_state_bytes. destruct (fresh_cache c now); [done |].
  by destruct (build_full_state_bytes g).
Qed.

Lemma get_state_bytes_returns c now g :
  globals_inv g → ∃ b, returned (get_state_bytes c now g).2 = Ok b.
Proof.
  intros Hinv. unfold get_state_bytes.
  destruct (fresh_cache c now) as [b |]; [by exists b |].
  destruct (build_full_state_bytes_Ok g Hinv) as [b ->]. by exists b.
Qed.

Lemma step_debounce_inv s e s' :
  globals_inv (globals s) → debounce_inv s → step s e = Some s' →
  debounce_inv s'.
Proof.
  intros Hg [Hone Hpend Hcount].
  destruct e as [result | price now_wib | text | now | now | now]; simpl.
  - destruct (api_turn _ result) as [st t]. intros [= <-]. by split.
  - destruct (usd_turn _ price now_wib) as [g t]. intros [= <-]. by split.
  - destruct (atur_handler _ text) as [g sp]. intros [= <-]. by split.
  - destruct (created s); [discriminate |]. intros [= <-].
    unfold schedule_broadcast_start.
    destruct (_pending s) eqn:Hp; [by split |].
    assert (Hnil : sleeping s = []).
    { destruct (sleeping s) as [| d l] eqn:Hs; [done |].
      assert (false = true) by (by apply Hpend). done. }
    split; simpl; rewrite Hnil in *; simpl in *; [lia | done | lia].
  - destruct (sleeping s) as [| due rest] eqn:Hs; [discriminate |].
    destruct (due <=? now); [| discriminate]. intros [= <-].
    unfold schedule_broadcast_resume.
    pose proof (get_state_bytes_version (state_cache s) now (globals s)) as Hv.
    destruct (get_state_bytes_returns (state_cache s) now (globals s) Hg) as [b Hb].
    destruct (get_state_bytes _ _ _) as [c f]. simpl in *.
    rewrite Hs, Hb. simpl in *.
    destruct rest; [| simpl in Hone; lia].
    split; simpl; [lia | done |]. rewrite Hv, Hcount, length_app. simpl. lia.
  - intros [= <-]. unfold read_state.
    pose proof (get_state_bytes_version (state_cache s) now (globals s)) as Hv.
    destruct (get_state_bytes _ _ _) as [c f]. simpl in *.
    split; simpl; [done | done | by rewrite Hv].
Qed.

(** X9. Along every run at most one [schedule_broadcast] is asleep, one
    is asleep exactly while [_pending] is set, and the version of the
    cache counts the broadcasts made plus the one still asleep: every
    invalidation is answered by exactly one broadcast. *)
Theorem debouncer_is_single_flight (es : list event) (s : System) :
  run boot es = Some s →
  (length (sleeping s) ≤ 1)%nat ∧
  (_pending s = true ↔ sleeping s ≠ []) ∧
  _version (state_cache s) = (length (broadcasts s) + length (sleeping s))%nat.
Proof.
  assert (Hgen : ∀ es s0 s,
            globals_inv (globals s0) → debounce_inv s0 →
            run s0 es = Some s → debounce_inv s).
  { clear es s. induction es as [| e es IH]; simpl; intros s0 s Hg Hd.
    - by intros [= <-].
    - destruct (step s0 e) as [s1 |] eqn:Hstep; [| discriminate].
      apply IH; [by eapply step_inv | by eapply step_debounce_inv]. }
  intros Hrun.
  destruct (Hgen es boot s initial_globals_inv) as [H1 H2 H3]; [| done | done].
  split; simpl; [lia | done | done].
Qed.

End SingleFlight.

(** ** The registry under any sequence of calls *)

Lemma broadcast_subseteq net conns : broadcast net conns ⊆ conns.
Proof.
  unfold broadcast, broadcast_among.
  destruct (bool_decide (conns = ∅)); [done |].
  rewrite disconnect_all_difference. set_solver.
Qed.

Lemma registry_step_size conns op :
  (size conns ≤ MAX_CONNECTIONS)%nat →
  (size (registry_step conns op) ≤ MAX_CONNECTIONS)%nat.
Proof.
  intros Hsize. destruct op as [w | w | net | net]; simpl.
  - unfold connect. destruct (Nat.leb_spec MAX_CONNECTIONS (size conns)); simpl; [done |].
    pose proof (size_union_alt {[w]} conns) as Hu. rewrite size_singleton in Hu.
    assert (size (conns ∖ {[w]}) ≤ size conns)%nat by (apply subseteq_size; set_solver).
    assert (Hcases : w ∈ conns ∨ w ∉ conns) by (destruct (decide (w ∈ conns)); auto).
    destruct Hcases as [Hin | Hout].
    + replace ({[w]} ∪ conns) with conns by set_solver. done.
    + lia.
  - assert (size (disconnect conns w) ≤ size conns)%nat
      by (apply subseteq_size; unfold disconnect; set_solver).
    lia.
  - pose proof (subseteq_size _ _ (broadcast_subseteq net conns)). lia.
  - unfold heartbeat_turn. destruct (0 <? count conns)%nat; [| done].
    pose proof (subseteq_size _ _ (broadcast_subseteq net conns)). lia.
Qed.

(** X10. Whatever sequence of connects, disconnects, broadcasts and
    heartbeats runs on an empty registry, it never holds more than 500
    sockets. *)
Theorem registry_never_exceeds_capacity (ops : list registry_op) :
  (size (foldl registry_step ∅ ops) ≤ 500)%nat.
Proof.
  assert (Hgen : ∀ conns : gset ws, (size conns ≤ MAX_CONNECTIONS)%nat →
            (size (foldl registry_step conns ops) ≤ MAX_CONNECTIONS)%nat).
  { induction ops as [| op ops IH]; simpl; intros conns Hsize; [done |].
    by apply IH, registry_step_size. }
  apply Hgen. rewrite size_empty. unfold MAX_CONNECTIONS. lia.
Qed.

(** X11. [disconnect] removes the socket whether or not it is registered
    and doing it twice is doing it once; admitting a new socket and
    disconnecting it gives the registry back. *)
Theorem disconnect_undoes_connect (conns : gset ws) (w : ws) :
  w ∉ conns → (size conns < 500)%nat →
  disconnect (connect conns w).1 w = conns ∧
  disconnect conns w = conns ∧
  disconnect (disconnect (connect conns w).1 w) w = conns ∧
  w ∉ disconnect (connect conns w).1 w.
Proof.
  intros Hnew Hroom. unfold connect, disconnect, MAX_CONNECTIONS.
  destruct (Nat.leb_spec 500 (size conns)); [lia |]. simpl.
  repeat split; set_solver.
Qed.

Lemma chunk_elapsed_bounds net chunk : 0 ≤ chunk_elapsed net chunk ≤ SEND_TIMEOUT.
Proof.
  unfold chunk_elapsed. induction chunk as [| w chunk IH]; simpl.
  - unfold SEND_TIMEOUT. lia.
  - pose proof (send_safe_elapsed (net w)). lia.
Qed.

Lemma chunks_length (connections : list ws) :
  length (chunks connections) = ((length connections + 49) / 50)%nat.
Proof.
  unfold chunks, range_step, BROADCAST_CHUNK_SIZE.
  rewrite !length_map, length_seq. f_equal. lia.
Qed.

(** X12. A broadcast awaits one gather per chunk and each gather ends
    within the 5 s timeout: over a registry of at most 500 sockets it
    takes between 0 and 50 s, however many sockets hang. *)
Theorem broadcast_takes_bounded_time (net : ws → sending) (conns : gset ws) :
  (size conns ≤ 500)%nat →
  0 ≤ broadcast_elapsed net (elements conns)
    ≤ 5000 * Z.of_nat ((size conns + 49) / 50) ∧
  broadcast_elapsed net (elements conns) ≤ 50000.
Proof.
  intros Hsize.
  assert (Hsum : ∀ cs : list (list ws),
            0 ≤ foldr Z.add 0 (map (chunk_elapsed net) cs)
              ≤ 5000 * Z.of_nat (length cs)).
  { induction cs as [| c cs IH]; simpl; [lia |].
    pose proof (chunk_elapsed_bounds net c) as Hc. unfold SEND_TIMEOUT in Hc. lia. }
  specialize (Hsum (chunks (elements conns))).
  rewrite chunks_length in Hsum.
  change (length (elements conns)) with (size conns) in Hsum.
  unfold broadcast_elapsed. split; [exact Hsum |].
  assert ((size conns + 49) / 50 < 11)%nat
    by (apply Nat.Div0.div_lt_upper_bound; lia).
  lia.
Qed.


(** ** The synchronous getter *)

Section SyncGetter.
Context `{PyRuntime}.

(** X14. [get_state_bytes_sync] returns non-empty cached bytes whatever
    their age and never rebuilds them: it agrees with [get_state_bytes]
    while the bytes are younger than 50 ms, and keeps serving them when
    [get_state_bytes] rebuilds. *)
Theorem sync_getter_ignores_age
    (c : StateCache) (now : Z) (g : Globals) (b : string) :
  _cache c = Some b → b ≠ "" →
  get_state_bytes_sync c now g = (c, {| returned := Ok b; rebuilt := false |}) ∧
  (now - _cache_time c < 50 →
     get_state_bytes c now g = get_state_bytes_sync c now g) ∧
  (50 ≤ now - _cache_time c → rebuilt (get_state_bytes c now g).2 = true).
Proof.
  intros Hc Hb.
  assert (Hsync : get_state_bytes_sync c now g
                  = (c, {| returned := Ok b; rebuilt := false |})).
  { unfold get_state_bytes_sync. rewrite Hc.
    by destruct (String.eqb_spec b ""). }
  split; [exact Hsync |]. split.
  - intros Hyoung. rewrite Hsync. by apply get_state_bytes_hit.
  - intros Hold. unfold get_state_bytes.
    assert (Hstale : fresh_cache c now = None).
    { destruct (fresh_cache c now) as [b0 |] eqn:Hf; [| done].
      apply fresh_cache_Some in Hf as (_ & _ & Hlt). unfold STATE_CACHE_TTL in Hlt. lia. }
    rewrite Hstale. by destruct (build_full_state_bytes g).
Qed.

End SyncGetter.

(** ** The socket handler *)


Section EndpointFacts.
Context `{PyRuntime}.

(** X15. When the handler of a new socket returns, the socket is not in
    the registry, whatever other tasks did to the registry meanwhile. A
    socket that arrives at a full registry is sent the close code 1013
    and nothing else; registry and cache stay as they were. *)
Theorem session_leaves_socket_unregistered
    (conns : gset ws) (later : gset ws → gset ws) (c : StateCache) (now : Z)
    (g : Globals) (w : ws) (first_ok : bool) (inputs : list loop_turn) :
  w ∉ conns →
  (returned_from (websocket_endpoint conns later c now g w first_ok inputs) = true →
   w ∉ registry_after (websocket_endpoint conns later c now g w first_ok inputs)) ∧
  ((500 ≤ size conns)%nat →
   websocket_endpoint conns later c now g w first_ok inputs
   = {| frames_sent := [Close 1013]; returned_from := true;
        registry_after := conns; cache_after := c |}).
Proof.
  intros Hnew. unfold websocket_endpoint, connect, MAX_CONNECTIONS. split.
  - destruct (500 <=? size conns)%nat; simpl; [done |].
    destruct (get_state_bytes c now g) as [c' f].
    destruct (returned f) as [initial_data |]; simpl;
      [| unfold disconnect; set_solver].
    destruct first_ok; simpl; [| unfold disconnect; set_solver].
    destruct (receive_loop inputs) as [frames over]. simpl.
    intros ->. unfold disconnect. set_solver.
  - intros Hfull. destruct (Nat.leb_spec 500 (size conns)); [done | lia].
Qed.


End EndpointFacts.

(** ** Amounts and their display *)

Lemma digit_char_value d :
  0 ≤ d ≤ 9 →
  is_digit (digit_char d) = true ∧
  Z.of_nat (nat_of_ascii (digit_char d) - 48) = d ∧
  digit_char d ≠ ","%char ∧ digit_char d ≠ "."%char ∧ digit_char d ≠ "-"%char.
Proof.
  intros Hd.
  assert (Hcases : d = 0 ∨ d = 1 ∨ d = 2 ∨ d = 3 ∨ d = 4 ∨ d = 5 ∨ d = 6 ∨
                   d = 7 ∨ d = 8 ∨ d = 9) by lia.
  repeat (destruct Hcases as [-> | Hcases]); try subst d;
    repeat split; try reflexivity; discriminate.
Qed.

Lemma digits_value_cons a c rest :
  is_digit c = true →
  digits_value a (String c rest)
  = digits_value (10 * a + Z.of_nat (nat_of_ascii c - 48)) rest.
Proof. intros Hc. cbn [digits_value]. by rewrite Hc. Qed.

Lemma reads_as_digit c d :
  is_digit c = true → Z.of_nat (nat_of_ascii c - 48) = d →
  c ≠ ","%char → c ≠ "."%char → c ≠ "-"%char →
  reads_as [c] d.
Proof.
  intros Hd Hv H1 H2 H3. split; [constructor; [done | constructor] |].
  intros a rest. cbn [app string_of_chars fold_right length].
  rewrite digits_value_cons by done. rewrite Hv. f_equal.
  change (Z.of_nat 1) with 1. lia.
Qed.

Lemma reads_as_snoc ds c q d :
  reads_as ds q → reads_as [c] d → reads_as (ds ++ [c]) (10 * q + d).
Proof.
  intros [Hall Hval] [Hall1 Hval1]. split; [by apply Forall_app |].
  intros a rest. rewrite <- app_assoc, Hval, Hval1. f_equal.
  rewrite length_app. cbn [length].
  replace (Z.of_nat (length ds + 1)) with (Z.succ (Z.of_nat (length ds))) by lia.
  rewrite Z.pow_succ_r by lia. change (Z.of_nat 1) with 1. lia.
Qed.

Lemma digits_fuel_S fuel n acc :
  digits_fuel (S fuel) n acc
  = if n / 10 =? 0 then digit_char (n mod 10) :: acc
    else digits_fuel fuel (n / 10) (digit_char (n mod 10) :: acc).
Proof. reflexivity. Qed.

Lemma digits_fuel_reads fuel : ∀ n acc,
  0 ≤ n < 10 ^ Z.of_nat (S fuel) →
  ∃ ds, digits_fuel (S fuel) n acc = ds ++ acc ∧ ds ≠ [] ∧ reads_as ds n.
Proof.
  induction fuel as [| fuel IH]; intros n acc Hn.
  - assert (Hsmall : 0 ≤ n ≤ 9) by (change (Z.of_nat 1) with 1 in Hn; lia).
    destruct (digit_char_value n Hsmall) as (Hd & Hv & H1 & H2 & H3).
    exists [digit_char n]. rewrite digits_fuel_S.
    rewrite (Z.mod_small n 10) by lia.
    split; [by destruct (n / 10 =? 0) |]. split; [done |].
    by apply reads_as_digit.
  - rewrite digits_fuel_S.
    assert (Hd0 : 0 ≤ n mod 10 ≤ 9) by (pose proof (Z.mod_pos_bound n 10); lia).
    destruct (digit_char_value (n mod 10) Hd0) as (Hd & Hv & H1 & H2 & H3).
    pose proof (reads_as_digit _ _ Hd Hv H1 H2 H3) as Hlast.
    destruct (Z.eqb_spec (n / 10) 0) as [Hq | Hq].
    + exists [digit_char (n mod 10)].
      split; [done |]. split; [done |].
      replace (n mod 10) with n in Hlast at 2
        by (pose proof (Z.div_mod n 10); lia).
      exact Hlast.
    + assert (Hn' : 0 ≤ n / 10 < 10 ^ Z.of_nat (S fuel)).
      { split; [apply Z.div_pos; lia |].
        apply Z.div_lt_upper_bound; [lia |].
        replace (Z.of_nat (S (S fuel))) with (Z.succ (Z.of_nat (S fuel))) in Hn by lia.
        rewrite Z.pow_succ_r in Hn by lia. lia. }
      destruct (IH (n / 10) (digit_char (n mod 10) :: acc) Hn')
        as (ds & Heq & Hne & Hreads).
      exists (ds ++ [digit_char (n mod 10)]).
      split; [by rewrite Heq, <- app_assoc |].
      split; [by destruct ds |].
      pose proof (reads_as_snoc _ _ _ _ Hreads Hlast) as Hr.
      replace (10 * (n / 10) + n mod 10) with n in Hr
        by (pose proof (Z.div_mod n 10); lia).
      exact Hr.
Qed.

Lemma digits_reads n : 0 ≤ n → digits n ≠ [] ∧ reads_as (digits n) n.
Proof.
  intros Hn. unfold digits.
  assert (Hfuel : 0 ≤ n < 10 ^ Z.of_nat (S (Z.to_nat (Z.log2 n)))).
  { split; [done |].
    destruct (Z.eq_dec n 0) as [-> | Hpos]; [simpl; lia |].
    pose proof (Z.log2_spec n ltac:(lia)) as [_ Hlt].
    pose proof (Z.log2_nonneg n).
    replace (Z.of_nat (S (Z.to_nat (Z.log2 n)))) with (Z.succ (Z.log2 n)) by lia.
    eapply Z.lt_le_trans; [exact Hlt |].
    apply Z.pow_le_mono_l. lia. }
  destruct (digits_fuel_reads _ n [] Hfuel) as (ds & -> & Hne & Hreads).
  by rewrite app_nil_r.
Qed.

Lemma drop_char_chars a l :
  drop_char a (string_of_chars l)
  = string_of_chars (filter (fun c => c ≠ a) l).
Proof.
  induction l as [| c l IH]; simpl; [done |].
  rewrite filter_cons. destruct (Ascii.eqb_spec c a) as [-> | Hne].
  - by destruct (decide _).
  - destruct (decide _); [simpl; by rewrite IH | done].
Qed.

Lemma filter_rev {A} (P : A → Prop) `{∀ x, Decision (P x)} (l : list A) :
  filter P (rev l) = rev (filter P l).
Proof.
  induction l as [| x l IH]; simpl; [done |].
  rewrite filter_app, IH, filter_cons.
  destruct (decide (P x)); simpl.
  - by rewrite filter_cons_True, filter_nil.
  - by rewrite filter_cons_False, filter_nil, app_nil_r.
Qed.

Lemma group3_rev_four (sep a b c d : ascii) (rest : list ascii) :
  group3_rev sep (a :: b :: c :: d :: rest)
  = a :: b :: c :: sep :: group3_rev sep (d :: rest).
Proof. reflexivity. Qed.

Lemma group3_rev_filter (sep : ascii) (n : nat) : ∀ l,
  (length l ≤ n)%nat →
  filter (fun c => c ≠ sep) (group3_rev sep l) = filter (fun c => c ≠ sep) l.
Proof.
  induction n as [| n IH]; intros l Hlen.
  - destruct l; [done | simpl in Hlen; lia].
  - destruct l as [| a [| b [| c [| d rest]]]]; try done.
    rewrite group3_rev_four.
    rewrite !(filter_cons _ a), !(filter_cons _ b), !(filter_cons _ c).
    rewrite (filter_cons_False _ sep) by (intros Hneq; by apply Hneq).
    rewrite IH by (simpl in *; lia).
    done.
Qed.

Lemma group3_filter (sep : ascii) (ds : list ascii) :
  Forall (fun c => c ≠ sep) ds →
  filter (fun c => c ≠ sep) (group3 sep ds) = ds.
Proof.
  intros Hall. unfold group3.
  rewrite filter_rev, (group3_rev_filter sep (length (rev ds))) by done.
  rewrite <- filter_rev, rev_involutive.
  induction Hall as [| c ds Hc _ IH]; [done |].
  by rewrite filter_cons_True, IH.
Qed.

Lemma drop_dots_of_commas s :
  has_char "." s = false →
  drop_char "." (replace_char "," "." s) = drop_char "," s.
Proof.
  induction s as [| c s IH]; simpl; [done |].
  intros Hno. apply orb_false_elim in Hno as [Hc Hs].
  destruct (Ascii.eqb_spec c ","%char) as [-> | Hne]; simpl.
  - by apply IH.
  - rewrite Hc. f_equal. by apply IH.
Qed.

Lemma has_char_chars a l :
  Forall (fun c => c ≠ a) l → has_char a (string_of_chars l) = false.
Proof.
  induction 1 as [| c l Hc _ IH]; simpl; [done |].
  rewrite IH, orb_false_r. by apply Ascii.eqb_neq.
Qed.

Lemma group3_no_dot (ds : list ascii) :
  Forall (fun c => c ≠ "."%char) ds → Forall (fun c => c ≠ "."%char) (group3 "," ds).
Proof.
  intros Hall. unfold group3.
  assert (Hrev : ∀ n l, (length l ≤ n)%nat →
            Forall (fun c : ascii => c ≠ "."%char) l →
            Forall (fun c : ascii => c ≠ "."%char) (group3_rev "," l)).
  { induction n as [| n IH]; intros l Hlen Hl.
    - destruct l; [done | simpl in Hlen; lia].
    - destruct l as [| a [| b [| c [| d rest]]]]; try done.
      rewrite group3_rev_four.
      inversion Hl as [| ? ? Ha Hl1]; subst.
      inversion Hl1 as [| ? ? Hb Hl2]; subst.
      inversion Hl2 as [| ? ? Hc Hl3]; subst.
      do 3 (constructor; [done |]). constructor; [discriminate |].
      apply IH; [simpl in *; lia | done]. }
  apply Forall_forall. intros c Hc.
  apply list_elem_of_In, in_rev, list_elem_of_In in Hc.
  revert c Hc. apply Forall_forall.
  apply (Hrev (length (rev ds))); [done |].
  apply Forall_forall. intros c Hc.
  apply list_elem_of_In, in_rev, list_elem_of_In in Hc.
  revert c Hc. by apply Forall_forall.
Qed.

(** X17. The display of an amount reads back as the amount: dropping the
    dots of [format_rupiah n] leaves the sign and the decimal digits of
    [n]. Hence different amounts are never displayed alike. *)
Theorem format_rupiah_reads_back (n m : Z) :
  unformat_rupiah (format_rupiah n) = Some n ∧
  (format_rupiah n = format_rupiah m → n = m).
Proof.
  assert (Hback : ∀ z, unformat_rupiah (format_rupiah z) = Some z).
  { intros z. unfold unformat_rupiah, format_rupiah, format_int_comma.
    destruct (digits_reads (Z.abs z) ltac:(lia)) as [Hne [Hall Hval]].
    assert (Hcomma : Forall (fun c : ascii => c ≠ ","%char) (digits (Z.abs z)))
      by (eapply Forall_impl; [exact Hall | naive_solver]).
    assert (Hdot : Forall (fun c : ascii => c ≠ "."%char) (digits (Z.abs z)))
      by (eapply Forall_impl; [exact Hall | naive_solver]).
    assert (Hbody : drop_char "," (string_of_chars (group3 "," (digits (Z.abs z))))
                    = string_of_chars (digits (Z.abs z)))
      by (by rewrite drop_char_chars, group3_filter).
    assert (Hnodot : has_char "." (string_of_chars (group3 "," (digits (Z.abs z))))
                     = false)
      by (by apply has_char_chars, group3_no_dot).
    specialize (Hval 0 []). rewrite app_nil_r in Hval.
    change (digits_value (0 * 10 ^ Z.of_nat (length (digits (Z.abs z))) + Z.abs z)
              (string_of_chars []))
      with (Some (0 * 10 ^ Z.of_nat (length (digits (Z.abs z))) + Z.abs z)) in Hval.
    remember (string_of_chars (group3 "," (digits (Z.abs z)))) as body eqn:Ebody.
    remember (string_of_chars (digits (Z.abs z))) as plain eqn:Eplain.
    destruct (Z.ltb_spec z 0) as [Hneg | Hpos].
    - change ("-" +:+ body) with (String "-" body).
      rewrite drop_dots_of_commas by (simpl; exact Hnodot).
      simpl. rewrite Hbody, Hval. simpl. f_equal. lia.
    - rewrite drop_dots_of_commas by exact Hnodot.
      rewrite Hbody.
      destruct (digits (Z.abs z)) as [| c ds] eqn:Hds; [done |].
      inversion Hall as [| ? ? (_ & _ & _ & Hminus) _]; subst.
      cbn [string_of_chars fold_right] in *.
      rewrite (proj2 (Ascii.eqb_neq c "-"%char)) by done.
      rewrite Hval. f_equal. lia. }
  split; [apply Hback |].
  intros Heq. pose proof (Hback n) as Hn. rewrite Heq, Hback in Hn. congruence.
Qed.

(** ** The further properties on sample runs *)

Ltac on_sample_day thm :=
  exists_run (@run sample_runtime boot sample_day);
  match goal with
  | |- ?A ∧ _ =>
      let Hrun := fresh "Hrun" in
      assert (Hrun : A) by (vm_compute; reflexivity);
      split; [exact Hrun | exact (thm sample_runtime _ _ Hrun)]
  end.

Lemma rate_history_never_repeats_witness :
  ∃ s, @run sample_runtime boot sample_day = Some s ∧
    adjacent (fun a b => item_price a ≠ item_price b) (usd_idr_history (globals s)).
Proof. on_sample_day @rate_history_never_repeats. Defined.

Lemma stored_marks_match_diffs_witness :
  ∃ s, @run sample_runtime boot sample_day = Some s ∧
    Forall mark_matches_diff (history (globals s)).
Proof. on_sample_day @stored_marks_match_diffs. Defined.

Lemma neighbours_have_distinct_ids_witness :
  ∃ s, @run sample_runtime boot sample_day = Some s ∧
    adjacent (fun a b => item_key a ≠ item_key b) (history (globals s)) ∧
    newest_id_shown (globals s).
Proof. on_sample_day @neighbours_have_distinct_ids. Defined.

Lemma last_buy_mirrors_history_witness :
  ∃ s, @run sample_runtime boot sample_day = Some s ∧
    last_buy (globals s) = prev_buy (history (globals s)) ∧
    (last_buy (globals s) = None ↔ history (globals s) = []).
Proof. on_sample_day @last_buy_mirrors_history. Defined.

Lemma annotation_has_no_line_feed_witness :
  ∃ s, @run sample_runtime boot sample_day = Some s ∧
    has_char LINE_FEED (treasury_info (globals s)) = false.
Proof. on_sample_day @annotation_has_no_line_feed. Defined.

Lemma debouncer_is_single_flight_witness :
  ∃ s, @run sample_runtime boot sample_day = Some s ∧
    (length (sleeping s) ≤ 1)%nat ∧
    (_pending s = true ↔ sleeping s ≠ []) ∧
    _version (state_cache s) = (length (broadcasts s) + length (sleeping s))%nat.
Proof. on_sample_day @debouncer_is_single_flight. Defined.

Lemma same_rate_recorded_once_witness :
  ∃ g1 t1,
    @usd_turn initial_globals (Some "16.250") "10:00:00" = (g1, t1) ∧
    spawned t1 = true ∧
    foldl (fun g' w => (usd_turn g' (Some "16.250") w).1) g1
      ["10:00:01"; "10:00:02"] = g1 ∧
    Forall (fun w => usd_turn g1 (Some "16.250") w
                     = (g1, {| slept := USD_POLL_INTERVAL; spawned := false |}))
           ["10:00:01"; "10:00:02"].
Proof.
  exists_turn (usd_turn initial_globals (Some "16.250") "10:00:00").
  match goal with
  | |- ?A ∧ ?B ∧ _ =>
      assert (Ha : A) by (vm_compute; reflexivity);
      assert (Hb : B) by reflexivity
  end.
  split; [exact Ha |]. split; [exact Hb |].
  exact (same_rate_recorded_once _ _ _ _ _ _ Ha Hb).
Defined.

Lemma crowded_globals_size : size (shown_updates crowded_globals) = 5000%nat.
Proof.
  unfold crowded_globals, shown_updates.
  rewrite size_list_to_set, length_fmap, length_seq; [done |].
  apply NoDup_fmap_2; [| apply NoDup_seq].
  intros n m [= Hnm]. lia.
Qed.

Lemma overflow_forgets_older_ids_witness :
  ∃ g',
    size (shown_updates crowded_globals) = 5000%nat ∧
    (Some (inr "U1") ∉ shown_updates crowded_globals) ∧
    @record_price sample_runtime crowded_globals (PInt 1000000) (PInt 990000)
      (PStr "U1") (Some (inr "U1")) = Ok g' ∧
    shown_updates g' = {[ Some (inr "U1") ]} ∧
    ∀ buy' sell' upd' k',
      k' ∈ shown_updates crowded_globals → py_key upd' = Ok k' →
      truthy buy' = true → truthy sell' = true → truthy upd' = true →
      update_guard (shown_updates crowded_globals) buy' sell' upd' = Ok false ∧
      update_guard (shown_updates g') buy' sell' upd' = Ok true.
Proof.
  assert (Ha : size (shown_updates crowded_globals) = 5000%nat)
    by exact crowded_globals_size.
  assert (Hb : Some (inr "U1") ∉ shown_updates crowded_globals).
  { unfold crowded_globals, shown_updates.
    rewrite elem_of_list_to_set, list_elem_of_fmap. intros (n & Hn & _). discriminate Hn. }
  assert (Hbuy : @py_int_float sample_runtime (PInt 1000000) = Ok 1000000)
    by (vm_compute; reflexivity).
  assert (Hsell : @py_int_float sample_runtime (PInt 990000) = Ok 990000)
    by (vm_compute; reflexivity).
  assert (Hc : ∃ g', @record_price sample_runtime crowded_globals (PInt 1000000)
                       (PInt 990000) (PStr "U1") (Some (inr "U1")) = Ok g').
  { unfold record_price. rewrite Hbuy, Hsell. cbn [mbind res_bind]. by eexists. }
  destruct Hc as [g' Hc]. exists g'.
  split; [exact Ha |]. split; [exact Hb |]. split; [exact Hc |].
  exact (@overflow_forgets_older_ids sample_runtime _ _ _ _ _ _ Ha Hb Hc).
Defined.

Lemma pollers_spawn_iff_changed_witness :
  ∃ st' t g' t',
    @api_turn sample_runtime (api_start initial_globals) (Some tick_U1) = (st', t) ∧
    usd_turn initial_globals (Some "") "10:00:00" = (g', t') ∧
    (spawned t = true ↔ api_globals st' ≠ api_globals (api_start initial_globals)) ∧
    (spawned t' = true ↔ g' ≠ initial_globals).
Proof.
  exists_turn (@api_turn sample_runtime (api_start initial_globals) (Some tick_U1)).
  exists_turn (usd_turn initial_globals (Some "") "10:00:00").
  match goal with
  | |- ?A ∧ ?B ∧ _ =>
      assert (Ha : A) by (vm_compute; reflexivity);
      assert (Hb : B) by (vm_compute; reflexivity)
  end.
  split; [exact Ha |]. split; [exact Hb |].
  exact (@pollers_spawn_iff_changed sample_runtime _ _ _ _ _ _ _ _ _ Ha Hb).
Defined.

Lemma disconnect_undoes_connect_witness :
  (3%nat ∉ ({[ 1%nat; 2%nat ]} : gset ws)) ∧
  (size ({[ 1%nat; 2%nat ]} : gset ws) < 500)%nat ∧
  disconnect (connect {[ 1%nat; 2%nat ]} 3%nat).1 3%nat = {[ 1%nat; 2%nat ]}.
Proof.
  assert (Hnew : 3%nat ∉ ({[ 1%nat; 2%nat ]} : gset ws)) by set_solver.
  assert (Hroom : (size ({[ 1%nat; 2%nat ]} : gset ws) < 500)%nat)
    by (apply Nat.ltb_lt; vm_compute; reflexivity).
  split; [exact Hnew |]. split; [exact Hroom |].
  exact (proj1 (disconnect_undoes_connect _ _ Hnew Hroom)).
Defined.

Lemma broadcast_takes_bounded_time_witness :
  (size ({[ 1%nat; 2%nat; 3%nat ]} : gset ws) ≤ 500)%nat ∧
  broadcast_elapsed (fun w => if (w =? 2)%nat then Hangs else Completes 30)
    (elements ({[ 1%nat; 2%nat; 3%nat ]} : gset ws)) ≤ 50000.
Proof.
  assert (Hsize : (size ({[ 1%nat; 2%nat; 3%nat ]} : gset ws) ≤ 500)%nat)
    by (apply Nat.leb_le; vm_compute; reflexivity).
  split; [exact Hsize |].
  exact (proj2 (broadcast_takes_bounded_time _ _ Hsize)).
Defined.

Lemma sync_getter_ignores_age_witness :
  let c := {| _cache := Some "{}"; _cache_time := 0; _version := 3 |} in
  _cache c = Some "{}" ∧ "{}" ≠ "" ∧
  @get_state_bytes_sync sample_runtime c 60000 initial_globals
  = (c, {| returned := Ok "{}"; rebuilt := false |}).
Proof.
  intros c.
  assert (Hc : _cache c = Some "{}") by reflexivity.
  assert (Hb : "{}" ≠ "") by discriminate.
  split; [exact Hc |]. split; [exact Hb |].
  exact (proj1 (@sync_getter_ignores_age sample_runtime c 60000 initial_globals _ Hc Hb)).
Defined.

Lemma session_leaves_socket_unregistered_witness :
  let inputs :=
    [ {| delivered := Got client_ping; pong_send := Sent; ping_send := Sent |};
      {| delivered := Idle; pong_send := Sent; ping_send := Sent |};
      {| delivered := Got client_ping; pong_send := SendTimedOut;
         ping_send := SendFailed |} ] in
  let session :=
    @websocket_endpoint sample_runtime {[ 1%nat ]} (fun r => r ∪ {[ 9%nat ]})
      new_state_cache 0 initial_globals 2%nat true inputs in
  (2%nat ∉ ({[ 1%nat ]} : gset ws)) ∧
  returned_from session = true ∧
  2%nat ∉ registry_after session.
Proof.
  intros inputs session.
  assert (Hnew : 2%nat ∉ ({[ 1%nat ]} : gset ws)) by set_solver.
  assert (Hret : returned_from session = true) by (vm_compute; reflexivity).
  split; [exact Hnew |]. split; [exact Hret |].
  exact (proj1 (@session_leaves_socket_unregistered sample_runtime _ _ _ _ _ _ _ _ Hnew) Hret).
Defined.


Lemma deque_keeps_newest_witness :
  (length [1; 2] ≤ 3)%nat ∧
  foldl (deque_append 3) [1; 2] [3; 4; 5] = [3; 4; 5].
Proof.
  assert (Hlen : (length [1; 2] ≤ 3)%nat) by (simpl; lia).
  split; [exact Hlen |].
  exact (deque_keeps_newest 3 [3; 4; 5] [1; 2] Hlen).
Defined.

Lemma burst_without_reader_witness :
  ∃ s s',
    @run sample_runtime boot [PriceFetched (Some tick_U1)] = Some s ∧
    _pending s = false ∧ sleeping s = [] ∧
    forallb quiet [PriceFetched (Some tick_U2); Notify 2] = true ∧
    @run sample_runtime s
      (Notify 0 :: [PriceFetched (Some tick_U2); Notify 2] ++ [Wake 8]) = Some s' ∧
    0 + BROADCAST_DEBOUNCE ≤ 8 ∧
    match @build_full_state_bytes sample_runtime (globals s') with
    | Ok b => broadcasts s' = broadcasts s ++ [b]
    | Raise _ => broadcasts s' = broadcasts s
    end.
Proof.
  exists_run (@run sample_runtime boot [PriceFetched (Some tick_U1)]).
  exists_run (@run sample_runtime boot
                [PriceFetched (Some tick_U1); Notify 0;
                 PriceFetched (Some tick_U2); Notify 2; Wake 8]).
  match goal with
  | |- ?A ∧ ?B ∧ ?C ∧ ?D ∧ ?E ∧ _ =>
      assert (Ha : A) by (vm_compute; reflexivity);
      assert (Hb : B) by reflexivity;
      assert (Hc : C) by reflexivity;
      assert (Hd : D) by reflexivity;
      assert (He : E) by (vm_compute; reflexivity)
  end.
  do 5 (split; [assumption |]).
  exact (@burst_without_reader sample_runtime _ _ _ _ _ Hb Hc Hd He).
Defined.
